(** * SubMind aggregation pipeline (app.py): a shallow embedding

    The development follows [app.py]: the statistics reducer [calc_stats],
    the fetcher [fetch_json], the incident log [log_incident], the
    broadcaster [broadcast] with [push_scores] / [push_narratives], and the
    scheduled [worker] loop.

    Modelling conventions.
    - Python floats are idealised: arithmetic is carried out in the real
      numbers [R] (no rounding error, no overflow, no NaN); a JSON number
      is an integer or a rational.
    - A Python exception of class [Exception] is a value [Raise e], where
      [e] is the text [str(e)] of the exception.
    - Everything outside the process (HTTP responses, the SQLite file,
      the clock, subscriber queues) is an oracle [Env], consulted in
      call order. *)

From Stdlib Require Import ZArith QArith Qcanon Reals Lra Lia.
From stdpp Require Import gmap strings list sets sorting.

#[local] Set Warnings "-clear-no-such-hyp,-level-tolerance".

(* ===================================================================== *)
(** * Part I. Definitions                                                  *)
(* ===================================================================== *)

(** ** Python results: a value, or a raised exception *)

Definition exn := string.

Inductive Res (A : Type) : Type :=
| Ok (a : A)
| Raise (e : exn).
Arguments Ok {A} a.
Arguments Raise {A} e.

#[global] Instance Res_ret : MRet Res := fun _ a => Ok a.
#[global] Instance Res_bind : MBind Res := fun _ _ f m =>
  match m with
  | Ok a => f a
  | Raise e => Raise e
  end.

(** ** Float primitives (idealised over the reals) *)

(** [x / d] on floats: Python raises [ZeroDivisionError] on a zero divisor. *)
Definition py_div (x d : R) : Res R :=
  if Req_dec_T d 0 then Raise "float division by zero" else Ok (x / d)%R.

(** Nearest integer, ties to the even neighbour. *)
Definition round_half_even (x : R) : Z :=
  let f := Zfloor x in
  let d := (x - IZR f)%R in
  if Rlt_dec d (1 / 2) then f
  else if Rlt_dec (1 / 2) d then (f + 1)%Z
  else if Z.even f then f else (f + 1)%Z.

(** [round(x, ndigits)]: the decimal with [ndigits] places nearest to [x]. *)
Definition py_round (x : R) (ndigits : nat) : R :=
  (IZR (round_half_even (x * 10 ^ ndigits)) / 10 ^ ndigits)%R.

(** [sum(xs)]: left-to-right accumulation from 0. *)
Definition py_sum (xs : list R) : R := fold_left Rplus xs 0%R.

(** [v ** 0.5] for a float [v >= 0]. *)
Definition pow_half (v : R) : R := sqrt v.

(** ** StatsEngine: [calc_stats] (app.py lines 60-69) *)

Definition calc_stats (series : list R) : Res (R * R * R) :=
  match series with
  | [] => Ok (0, 0, 0)%R
  | first :: _ =>
      let n := length series in
      score ← py_div (py_sum series) (INR n);
      velocity ← py_div (List.last series first - first)
                        (IZR (Z.max (Z.of_nat n - 1) 1));
      let mean := score in
      var ← py_div (py_sum (map (fun x => (x - mean) ^ 2)%R series)) (INR n);
      let stdev := pow_half var in
      trust ← py_div 1 (1 + stdev);
      Ok (py_round score 3, py_round velocity 3, py_round trust 3)
  end.

(** The quantities the specification names, written from its words. *)
Definition spec_mean (xs : list R) : R := (py_sum xs / INR (length xs))%R.

Definition spec_pstdev (xs : list R) : R :=
  sqrt (py_sum (map (fun x => (x - spec_mean xs) ^ 2)%R xs) / INR (length xs)).

Definition spec_trust (xs : list R) : R := (1 / (1 + spec_pstdev xs))%R.

Definition all_equal (xs : list R) : Prop := ∀ x y, x ∈ xs → y ∈ xs → x = y.

(** ** JSON payloads, as [r.json()] hands them to the program *)

#[warnings="-register-all"] Inductive json : Type :=
| JNull
| JBool (b : bool)
| JInt (z : Z)
| JFloat (q : Qc)
| JStr (s : string)
| JArr (items : list json)
| JObj (fields : list (string * json)).

(** [type(v).__name__], as it appears in exception texts. *)
Definition type_name (v : json) : string :=
  match v with
  | JNull => "NoneType"
  | JBool _ => "bool"
  | JInt _ => "int"
  | JFloat _ => "float"
  | JStr _ => "str"
  | JArr _ => "list"
  | JObj _ => "dict"
  end.

(** [isinstance(v, dict)] *)
Definition is_dict (v : json) : bool :=
  match v with JObj _ => true | _ => false end.

(** Truth value of [v] in a condition. *)
Definition truthy (v : json) : bool :=
  match v with
  | JNull => false
  | JBool b => b
  | JInt z => negb (Z.eqb z 0)
  | JFloat q => negb (Qeq_bool q 0)
  | JStr s => negb (String.eqb s "")
  | JArr items => match items with [] => false | _ => true end
  | JObj fields => match fields with [] => false | _ => true end
  end.

(** [a or b] *)
Definition py_or (a b : json) : json := if truthy a then a else b.

Fixpoint assoc (key : string) (fields : list (string * json)) : option json :=
  match fields with
  | [] => None
  | (k, v) :: rest => if String.eqb k key then Some v else assoc key rest
  end.

(** [v.get(key, dflt)]: only a dict has the method. *)
Definition py_get (v : json) (key : string) (dflt : json) : Res json :=
  match v with
  | JObj fields => Ok (default dflt (assoc key fields))
  | _ => Raise ("'" +:+ type_name v +:+ "' object has no attribute 'get'")
  end.

Definition chars (s : string) : list json :=
  map (fun c => JStr (String c EmptyString)) (String.list_ascii_of_string s).

(** The elements a [for] loop over [v] visits. *)
Definition py_iter (v : json) : Res (list json) :=
  match v with
  | JArr items => Ok items
  | JStr s => Ok (chars s)
  | JObj fields => Ok (map (fun kv => JStr kv.1) fields)
  | _ => Raise ("'" +:+ type_name v +:+ "' object is not iterable")
  end.

(** [xs[-n:]] on a list: the last [n] elements, all of them when there are
    fewer. *)
Definition py_tail {A} (n : nat) (xs : list A) : list A :=
  drop (length xs - n) xs.

Definition not_sliceable (v : json) : exn :=
  match v with
  | JObj _ => "unhashable type: 'slice'"
  | _ => "'" +:+ type_name v +:+ "' object is not subscriptable"
  end.

(** [v[-n:]] *)
Definition py_slice_last (n : nat) (v : json) : Res json :=
  match v with
  | JArr items => Ok (JArr (py_tail n items))
  | JStr s => Ok (JStr (String.string_of_list_ascii (py_tail n (String.list_ascii_of_string s))))
  | _ => Raise (not_sliceable v)
  end.

(** [v[:n]] *)
Definition py_slice_first (n : nat) (v : json) : Res json :=
  match v with
  | JArr items => Ok (JArr (take n items))
  | JStr s => Ok (JStr (String.string_of_list_ascii (take n (String.list_ascii_of_string s))))
  | _ => Raise (not_sliceable v)
  end.

(** Members of a Python [set] built from JSON scalars. Numbers that compare
    equal ([1], [1.0], [True]) are one member; [None] is the absent case. *)
Definition Key : Type := option (string + Qc).

(** Hashing [v] for a set lookup: lists and dicts are unhashable. *)
Definition py_hash (v : json) : Res Key :=
  match v with
  | JNull => Ok None
  | JBool b => Ok (Some (inr (Q2Qc (inject_Z (if b then 1 else 0)))))
  | JInt z => Ok (Some (inr (Q2Qc (inject_Z z))))
  | JFloat q => Ok (Some (inr q))
  | JStr s => Ok (Some (inl s))
  | _ => Raise ("unhashable type: '" +:+ type_name v +:+ "'")
  end.

(** ** Records of the data model *)

(** A row of [rows]: keys "name", "score", "velocity", "trust", "ts". *)
Record Row := mkRow
  { name : string; score : R; velocity : R; trust : R; ts : R }.

(** An entry of [narratives]: keys "title", "source", "t". *)
Record Narrative := mkNarrative { title : json; source : string; n_t : R }.

(** An entry of [state["incidents"]]: keys "kind", "message", "t". *)
Record Incident := mkIncident { kind : string; message : string; i_t : R }.

(** The two messages [broadcast] is called with. *)
Inductive Payload :=
| ScoresEvent (rows : list Row)
| NarrativesEvent (rows : list Narrative).

(** ** The world the coroutines act on *)

Record World := mkWorld {
  (* the module-level [state] dict *)
  st_scores : list Row;
  st_narratives : list Narrative;
  st_incidents : list Incident;
  st_clients : gset nat;
  (* the three tables of data/submind.db *)
  db_scores : list Row;
  db_narratives : list Narrative;
  db_incidents : list Incident;
  (* what has been put on each subscriber queue, oldest first *)
  queues : gmap nat (list Payload);
  (* locals of [worker] that live across iterations *)
  prices : list (string * list R);
  hn_seen : gset Key;
  reddit_seen : gset Key;
  (* how many times each outside service has been called *)
  n_clock : nat;
  n_http : nat;
  n_db : nat;
  n_put : nat
}.

Definition set_st_scores (v : list Row) (w : World) : World :=
  mkWorld v (st_narratives w) (st_incidents w) (st_clients w) (db_scores
    w) (db_narratives w) (db_incidents w) (queues w) (prices w) (hn_seen w)
    (reddit_seen w) (n_clock w) (n_http w) (n_db w) (n_put w).

Definition set_st_narratives (v : list Narrative) (w : World) : World :=
  mkWorld (st_scores w) v (st_incidents w) (st_clients w) (db_scores w)
    (db_narratives w) (db_incidents w) (queues w) (prices w) (hn_seen w)
    (reddit_seen w) (n_clock w) (n_http w) (n_db w) (n_put w).

Definition set_st_incidents (v : list Incident) (w : World) : World :=
  mkWorld (st_scores w) (st_narratives w) v (st_clients w) (db_scores w)
    (db_narratives w) (db_incidents w) (queues w) (prices w) (hn_seen w)
    (reddit_seen w) (n_clock w) (n_http w) (n_db w) (n_put w).

Definition set_st_clients (v : gset nat) (w : World) : World :=
  mkWorld (st_scores w) (st_narratives w) (st_incidents w) v (db_scores w)
    (db_narratives w) (db_incidents w) (queues w) (prices w) (hn_seen w)
    (reddit_seen w) (n_clock w) (n_http w) (n_db w) (n_put w).

Definition set_db_scores (v : list Row) (w : World) : World :=
  mkWorld (st_scores w) (st_narratives w) (st_incidents w) (st_clients w)
    v (db_narratives w) (db_incidents w) (queues w) (prices w) (hn_seen w)
    (reddit_seen w) (n_clock w) (n_http w) (n_db w) (n_put w).

Definition set_db_narratives (v : list Narrative) (w : World) : World :=
  mkWorld (st_scores w) (st_narratives w) (st_incidents w) (st_clients w)
    (db_scores w) v (db_incidents w) (queues w) (prices w) (hn_seen w)
    (reddit_seen w) (n_clock w) (n_http w) (n_db w) (n_put w).

Definition set_db_incidents (v : list Incident) (w : World) : World :=
  mkWorld (st_scores w) (st_narratives w) (st_incidents w) (st_clients w)
    (db_scores w) (db_narratives w) v (queues w) (prices w) (hn_seen w)
    (reddit_seen w) (n_clock w) (n_http w) (n_db w) (n_put w).

Definition set_queues (v : gmap nat (list Payload)) (w : World) : World :=
  mkWorld (st_scores w) (st_narratives w) (st_incidents w) (st_clients w)
    (db_scores w) (db_narratives w) (db_incidents w) v (prices w) (hn_seen
    w) (reddit_seen w) (n_clock w) (n_http w) (n_db w) (n_put w).

Definition set_prices (v : list (string * list R)) (w : World) : World :=
  mkWorld (st_scores w) (st_narratives w) (st_incidents w) (st_clients w)
    (db_scores w) (db_narratives w) (db_incidents w) (queues w) v (hn_seen
    w) (reddit_seen w) (n_clock w) (n_http w) (n_db w) (n_put w).

Definition set_hn_seen (v : gset Key) (w : World) : World :=
  mkWorld (st_scores w) (st_narratives w) (st_incidents w) (st_clients w)
    (db_scores w) (db_narratives w) (db_incidents w) (queues w) (prices w) v
    (reddit_seen w) (n_clock w) (n_http w) (n_db w) (n_put w).

Definition set_reddit_seen (v : gset Key) (w : World) : World :=
  mkWorld (st_scores w) (st_narratives w) (st_incidents w) (st_clients w)
    (db_scores w) (db_narratives w) (db_incidents w) (queues w) (prices w)
    (hn_seen w) v (n_clock w) (n_http w) (n_db w) (n_put w).

Definition set_n_clock (v : nat) (w : World) : World :=
  mkWorld (st_scores w) (st_narratives w) (st_incidents w) (st_clients w)
    (db_scores w) (db_narratives w) (db_incidents w) (queues w) (prices w)
    (hn_seen w) (reddit_seen w) v (n_http w) (n_db w) (n_put w).

Definition set_n_http (v : nat) (w : World) : World :=
  mkWorld (st_scores w) (st_narratives w) (st_incidents w) (st_clients w)
    (db_scores w) (db_narratives w) (db_incidents w) (queues w) (prices w)
    (hn_seen w) (reddit_seen w) (n_clock w) v (n_db w) (n_put w).

Definition set_n_db (v : nat) (w : World) : World :=
  mkWorld (st_scores w) (st_narratives w) (st_incidents w) (st_clients w)
    (db_scores w) (db_narratives w) (db_incidents w) (queues w) (prices w)
    (hn_seen w) (reddit_seen w) (n_clock w) (n_http w) v (n_put w).

Definition set_n_put (v : nat) (w : World) : World :=
  mkWorld (st_scores w) (st_narratives w) (st_incidents w) (st_clients w)
    (db_scores w) (db_narratives w) (db_incidents w) (queues w) (prices w)
    (hn_seen w) (reddit_seen w) (n_clock w) (n_http w) (n_db w) v.

(** ** The environment: what the outside answers, call by call *)

Record Env := mkEnv {
  (* the k-th [time.time()] *)
  clock : nat → R;
  (* the k-th GET: the decoded body, or the exception raised by the request,
     by [raise_for_status] or by [r.json()] *)
  http_get : nat → string → nat → list (string * string) → Res json;
  (* the k-th SQLite transaction: [None] when it commits, or the exception *)
  db_commit : nat → option exn;
  (* the k-th [q.put], on queue [q]: [None] when delivered, or the exception *)
  queue_put : nat → nat → option exn;
  (* the builtin [float] on a string: [None] when it is not a numeral *)
  float_of_str : string → option R;
  (* the environment variable NEWSAPI_KEY *)
  NEWSAPI_KEY : string
}.

(** ** Coroutines as state transformers that may raise *)

Definition M (A : Type) : Type := World → World * Res A.

#[global] Instance M_ret : MRet M := fun _ a w => (w, Ok a).
#[global] Instance M_bind : MBind M := fun _ _ f m w =>
  match m w with
  | (w', Ok a) => f a w'
  | (w', Raise e) => (w', Raise e)
  end.

Definition lift {A} (r : Res A) : M A := fun w => (w, r).
Definition gets {A} (f : World → A) : M A := fun w => (w, Ok (f w)).
Definition modify (f : World → World) : M unit := fun w => (f w, Ok tt).

(** [try: body / except Exception as e: handler e] *)
Definition try_except {A} (body : M A) (handler : exn → M A) : M A := fun w =>
  match body w with
  | (w', Raise e) => handler e w'
  | returned => returned
  end.

(** A [for] loop that threads the loop-carried local [b]. *)
Fixpoint fold_m {A B} (f : B → A → M B) (xs : list A) (b : B) : M B :=
  match xs with
  | [] => mret b
  | x :: rest => b' ← f b x; fold_m f rest b'
  end.

Definition for_each {A} (xs : list A) (body : A → M unit) : M unit :=
  fold_m (fun _ x => body x) xs tt.

(** ** Calls to the outside *)

(** [time.time()] *)
Definition time_time (env : Env) : M R := fun w =>
  (set_n_clock (S (n_clock w)) w, Ok (clock env (n_clock w))).

(** The body of the [try] in [fetch_json]: open a client, GET,
    [raise_for_status], decode. *)
Definition client_get (env : Env) (url : string) (timeout : nat)
    (headers : list (string * string)) : M json := fun w =>
  (set_n_http (S (n_http w)) w, http_get env (n_http w) url timeout headers).

(** [async with aiosqlite.connect(DB_PATH) as db: ...; await db.commit()]:
    the writes take effect when the transaction commits, and none of them
    does when it raises. *)
Definition db_transaction (env : Env) (writes : World → World) : M unit := fun w =>
  let w1 := set_n_db (S (n_db w)) w in
  match db_commit env (n_db w) with
  | None => (writes w1, Ok tt)
  | Some e => (w1, Raise e)
  end.

Definition received (w : World) (q : nat) : list Payload :=
  default [] (queues w !! q).

(** [await q.put(payload)] *)
Definition q_put (env : Env) (q : nat) (payload : Payload) : M unit := fun w =>
  let w1 := set_n_put (S (n_put w)) w in
  match queue_put env (n_put w) q with
  | None => (set_queues (<[q := received w q ++ [payload]]> (queues w)) w1, Ok tt)
  | Some e => (w1, Raise e)
  end.

(** [float(v)] *)
Definition py_float (env : Env) (v : json) : Res R :=
  match v with
  | JInt z => Ok (IZR z)
  | JFloat q => Ok (Q2R q)
  | JBool b => Ok (if b then 1 else 0)%R
  | JStr s =>
      match float_of_str env s with
      | Some x => Ok x
      | None => Raise ("could not convert string to float: '" +:+ s +:+ "'")
      end
  | _ => Raise ("float() argument must be a string or a real number, not '"
                +:+ type_name v +:+ "'")
  end.

(** ** IncidentLog: [log_incident] (lines 71-77) *)

Definition log_incident (env : Env) (kind message : string) : M unit :=
  t ← time_time env;
  let incident := mkIncident kind message t in
  modify (fun w => set_st_incidents (st_incidents w ++ [incident]) w);;
  modify (fun w => set_st_incidents (py_tail 100 (st_incidents w)) w);;
  db_transaction env (fun w => set_db_incidents (db_incidents w ++ [incident]) w).

(** ** Fetcher: [fetch_json] (lines 50-58) *)

Definition default_headers : list (string * string) :=
  [("User-Agent", "SubMind/1.0")].

(** [headers or {"User-Agent": "SubMind/1.0"}] *)
Definition headers_or_default (headers : option (list (string * string)))
    : list (string * string) :=
  match headers with
  | Some (h :: rest) => h :: rest
  | _ => default_headers
  end.

Definition fetch_json (env : Env) (url : string) (timeout : nat)
    (headers : option (list (string * string))) : M json :=
  try_except
    (client_get env url timeout (headers_or_default headers))
    (fun e => log_incident env "fetch_error" (url +:+ " -> " +:+ e);; mret JNull).

(** ** Broadcaster: [broadcast], [push_scores], [push_narratives]
       (lines 79-95) *)

Definition broadcast (env : Env) (payload : Payload) : M unit :=
  snapshot ← gets (fun w => elements (st_clients w));
  dead ← fold_m (fun dead q =>
            try_except (q_put env q payload;; mret dead)
                       (fun _ => mret (dead ++ [q])))
          snapshot [];
  for_each dead (fun q => modify (fun w => set_st_clients (st_clients w ∖ {[q]}) w)).

Definition push_scores (env : Env) (rows : list Row) : M unit :=
  modify (set_st_scores rows);;
  broadcast env (ScoresEvent rows).

Definition push_narratives (env : Env) (rows : list Narrative) : M unit :=
  modify (set_st_narratives rows);;
  broadcast env (NarrativesEvent rows).

(** [stream()] registering a fresh queue: [state["clients"].add(q)]. *)
Definition register (q : nat) : M unit :=
  modify (fun w => set_st_clients (st_clients w ∪ {[q]}) w).

(** ** Aggregator: [worker] (lines 102-185) *)

Definition coingecko_url : string :=
  "https://api.coingecko.com/api/v3/simple/price?ids=bitcoin,ethereum&vs_currencies=usd".
Definition wikimedia_url : string :=
  "https://wikimedia.org/api/rest_v1/metrics/edit/aggregate/all-projects/all-editor-types/all-page-types/daily/20240101/20240131".
Definition hackernews_url : string :=
  "https://hn.algolia.com/api/v1/search?tags=front_page".
Definition reddit_url : string :=
  "https://www.reddit.com/r/technology/top.json?t=day&limit=10".
Definition reddit_headers : list (string * string) :=
  [("User-Agent", "SubMind-OneClick/1.0")].
Definition newsapi_url (key : string) : string :=
  "https://newsapi.org/v2/top-headlines?language=en&pageSize=10&apiKey=" +:+ key.

(** The dict [prices], in insertion order. [dict_alter f k d] is
    [d[k] = f(d.setdefault(k, []))]. *)
Fixpoint dict_alter (f : list R → list R) (k : string)
    (d : list (string * list R)) : list (string * list R) :=
  match d with
  | [] => [(k, f [])]
  | (k', xs) :: rest =>
      if String.eqb k' k then (k', f xs) :: rest
      else (k', xs) :: dict_alter f k rest
  end.

(** Lines 114-115 on one window: append, then keep the last 120. *)
Definition window_push (v : R) (window : list R) : list R :=
  py_tail 120 (window ++ [v]).

(** # CoinGecko (lines 110-115) *)
Definition fetch_prices (env : Env) : M unit :=
  cg ← fetch_json env coingecko_url 10 None;
  if is_dict cg then
    for_each ["bitcoin"; "ethereum"] (fun coin =>
      entry ← lift (py_get cg coin (JObj []));
      usd ← lift (py_get entry "usd" (JFloat 0));
      v ← lift (py_float env usd);
      modify (fun w => set_prices (dict_alter (fun xs => xs ++ [v]) coin (prices w)) w);;
      modify (fun w => set_prices (dict_alter (py_tail 120) coin (prices w)) w))
  else mret tt.

(** # Wikipedia edits (lines 118-122): returns [wiki_vals]. *)
Definition fetch_wiki (env : Env) : M (list json) :=
  wiki ← fetch_json env wikimedia_url 10 None;
  if is_dict wiki then
    items ← lift (py_get wiki "items" (JArr []));
    last10 ← lift (py_slice_last 10 items);
    its ← lift (py_iter last10);
    fold_m (fun wiki_vals it =>
              results ← lift (py_get it "results" (JObj []));
              edits ← lift (py_get results "edits" (JInt 0));
              mret (wiki_vals ++ [edits]))
           its []
  else mret [].

(** The guarded append shared by the HackerNews and Reddit loops
    (lines 131-133 and 142-144):
    [if id and title and id not in seen: narratives.append(..); seen.add(id)]. *)
Definition accept_item (seen : World → gset Key) (add : Key → World → World)
    (src : string) (now : R) (id title : json)
    (narratives : list Narrative) : M (list Narrative) :=
  if truthy id && truthy title then
    k ← lift (py_hash id);
    known ← gets seen;
    if decide (k ∈ known) then mret narratives
    else
      modify (add k);;
      mret (narratives ++ [mkNarrative title src now])
  else mret narratives.

(** # HackerNews (lines 125-133): returns [narratives]. *)
Definition fetch_hackernews (env : Env) (now : R) : M (list Narrative) :=
  hn ← fetch_json env hackernews_url 10 None;
  if is_dict hn then
    hits ← lift (py_get hn "hits" (JArr []));
    first15 ← lift (py_slice_first 15 hits);
    its ← lift (py_iter first15);
    fold_m (fun narratives hit =>
              nid ← lift (py_get hit "objectID" JNull);
              t1 ← lift (py_get hit "title" JNull);
              t2 ← (if truthy t1 then mret t1
                    else lift (py_get hit "story_title" JNull));
              let title := py_or t2 (JStr "") in
              accept_item hn_seen (fun k w => set_hn_seen (hn_seen w ∪ {[k]}) w)
                          "HackerNews" now nid title narratives)
           its []
  else mret [].

(** # Reddit r/technology (lines 136-144): extends [narratives]. *)
Definition fetch_reddit (env : Env) (now : R) (narratives : list Narrative)
    : M (list Narrative) :=
  red ← fetch_json env reddit_url 10 (Some reddit_headers);
  if is_dict red then
    listing ← lift (py_get red "data" (JObj []));
    children ← lift (py_get listing "children" (JArr []));
    its ← lift (py_iter children);
    fold_m (fun narratives child =>
              data ← lift (py_get child "data" (JObj []));
              rid ← lift (py_get data "id" JNull);
              title ← lift (py_get data "title" (JStr ""));
              accept_item reddit_seen
                          (fun k w => set_reddit_seen (reddit_seen w ∪ {[k]}) w)
                          "Reddit/technology" now rid title narratives)
           its narratives
  else mret narratives.

(** # Optional: NewsAPI (lines 147-154): extends [narratives]. *)
Definition fetch_newsapi (env : Env) (now : R) (narratives : list Narrative)
    : M (list Narrative) :=
  if String.eqb (NEWSAPI_KEY env) "" then mret narratives
  else
    news ← fetch_json env (newsapi_url (NEWSAPI_KEY env)) 10 None;
    if is_dict news then
      articles ← lift (py_get news "articles" (JArr []));
      its ← lift (py_iter articles);
      fold_m (fun narratives art =>
                title ← lift (py_get art "title" (JStr ""));
                if truthy title
                then mret (narratives ++ [mkNarrative title "NewsAPI" now])
                else mret narratives)
             its narratives
    else mret narratives.

(** One row of [rows]: [s, v, t = calc_stats(series)]. *)
Definition score_row (row_name : string) (now : R) (series : list R) : Res Row :=
  stats ← calc_stats series;
  mret (mkRow row_name stats.1.1 stats.1.2 stats.2 now).

(** # Compute scores (lines 157-163) *)
Definition compute_scores (env : Env) (now : R) (wiki_vals : list json)
    : M (list Row) :=
  windows ← gets prices;
  rows ← fold_m (fun rows entry =>
                   row ← lift (score_row entry.1 now entry.2);
                   mret (rows ++ [row]))
                windows [];
  match wiki_vals with
  | [] => mret rows
  | _ =>
      floats ← lift (mapM (py_float env) wiki_vals);
      row ← lift (score_row "wikipedia_edits" now floats);
      mret (rows ++ [row])
  end.

(** # Persist (lines 166-173): one transaction for the whole tick. *)
Definition persist (env : Env) (rows : list Row) (narratives : list Narrative)
    : M unit :=
  db_transaction env (fun w =>
    set_db_narratives (db_narratives w ++ narratives)
      (set_db_scores (db_scores w ++ rows) w)).

(** [sorted(rows, key=lambda x: x["score"], reverse=True)]: descending,
    rows of equal score keep their order. *)
Fixpoint insert_desc (r : Row) (rows : list Row) : list Row :=
  match rows with
  | [] => [r]
  | r' :: rest =>
      if Rle_dec (score r') (score r) then r :: r' :: rest
      else r' :: insert_desc r rest
  end.

Definition sorted_desc (rows : list Row) : list Row := foldr insert_desc [] rows.

(** # Keep latest view (lines 176-180) *)
Definition publish (env : Env) (rows : list Row) (narratives : list Narrative)
    : M unit :=
  push_scores env (sorted_desc rows);;
  match narratives with
  | [] => mret tt
  | _ =>
      modify (fun w => set_st_narratives (py_tail 50 (st_narratives w ++ narratives)) w);;
      latest ← gets st_narratives;
      push_narratives env latest
  end.

(** The body of the [try] of one iteration (lines 108-180). *)
Definition tick_body (env : Env) : M unit :=
  now ← time_time env;
  fetch_prices env;;
  wiki_vals ← fetch_wiki env;
  narratives ← fetch_hackernews env now;
  narratives ← fetch_reddit env now narratives;
  narratives ← fetch_newsapi env now narratives;
  rows ← compute_scores env now wiki_vals;
  persist env rows narratives;;
  publish env rows narratives.

(** One iteration of [while True] (lines 107-185); the sleep that ends it
    changes nothing in the world. *)
Definition tick (env : Env) : M unit :=
  try_except (tick_body env) (fun e => log_incident env "loop_error" e).

(** The first [n] iterations of the loop. [Ok] means the loop is still
    running after them; [Raise e] means an exception left the coroutine,
    which ends it. *)
Fixpoint worker_loop (env : Env) (n : nat) : M unit :=
  match n with
  | O => mret tt
  | S n' => tick env;; worker_loop env n'
  end.

(** [worker()] (lines 102-106 then the loop): fresh locals, then iterate. *)
Definition worker (env : Env) (n : nat) : M unit :=
  modify (fun w => set_reddit_seen ∅ (set_hn_seen ∅
            (set_prices [("bitcoin", []); ("ethereum", [])] w)));;
  worker_loop env n.

(** The process right after start-up: empty [state], no subscriber, and the
    tables as [db_init] leaves a fresh file. *)
Definition initial_world : World :=
  mkWorld [] [] [] ∅ [] [] [] ∅ [] ∅ ∅ 0 0 0 0.

(** ** Vocabulary of the statements *)

(** A relation [P] between the world before and after holds across the
    coroutine [m]. *)
Definition steps (P : World → World → Prop) {A} (m : M A) : Prop :=
  ∀ w, P w (m w).1.

(** Feeding samples one by one, oldest first. *)
Definition feed (window : list R) (samples : list R) : list R :=
  foldl (fun w v => window_push v w) window samples.

Definition bounded (w : World) : Prop :=
  length (st_narratives w) ≤ 50 ∧ length (st_incidents w) ≤ 100.

(** [w'] holds the most recent entries of what [w] held followed by what
    was added since. *)
Definition recent (w w' : World) : Prop :=
  (∃ new, st_narratives w' = py_tail 50 (st_narratives w ++ new))
  ∧ (∃ new, st_incidents w' = py_tail 100 (st_incidents w ++ new)).

Definition keeps_recent (w w' : World) : Prop := bounded w → recent w w'.

(** The world once [incident] is in the in-memory tail and committed to the
    [incidents] table. *)
Definition logged (incident : Incident) (w : World) : World :=
  set_db_incidents (db_incidents w ++ [incident])
    (set_n_db (S (n_db w))
       (set_st_incidents (py_tail 100 (st_incidents w ++ [incident]))
          (set_n_clock (S (n_clock w)) w))).

(** The world when the insert of [incident] raised: the in-memory tail has
    it, the table does not. *)
Definition unlogged (incident : Incident) (w : World) : World :=
  set_n_db (S (n_db w))
    (set_st_incidents (py_tail 100 (st_incidents w ++ [incident]))
       (set_n_clock (S (n_clock w)) w)).

Definition fetch_error (env : Env) (url : string) (e : exn) (w : World) : Incident :=
  mkIncident "fetch_error" (url +:+ " -> " +:+ e) (clock env (n_clock w)).

(** The world after a GET that raised and whose incident was recorded. *)
Definition failed_fetch (env : Env) (url : string) (e : exn) (w : World) : World :=
  logged (fetch_error env url e w) (set_n_http (S (n_http w)) w).

Definition loop_error (env : Env) (e : exn) (w : World) : Incident :=
  mkIncident "loop_error" e (clock env (n_clock w)).

(** The dedup sets never lose a member. *)
Definition seen_grows (w w' : World) : Prop :=
  hn_seen w ⊆ hn_seen w' ∧ reddit_seen w ⊆ reddit_seen w'.

(** ** Scenarios: concrete environments *)

(** Every GET fails with status 503; the database works. *)
Definition outage_env : Env :=
  mkEnv (fun _ => 0%R) (fun _ _ _ _ => Raise "503 Service Unavailable")
        (fun _ => None) (fun _ _ => None) (fun _ => None) "".

(** Every source answers [null]; every transaction fails. *)
Definition locked_env : Env :=
  mkEnv (fun _ => 0%R) (fun _ _ _ _ => Ok JNull)
        (fun _ => Some "database is locked") (fun _ _ => None) (fun _ => None) "".

(** Every GET fails with status 503 and every transaction fails. *)
Definition outage_locked_env : Env :=
  mkEnv (fun _ => 0%R) (fun _ _ _ _ => Raise "503 Service Unavailable")
        (fun _ => Some "database is locked") (fun _ _ => None) (fun _ => None) "".

(** Every source answers [null]; the first transaction fails, later ones
    commit. *)
Definition hiccup_env : Env :=
  mkEnv (fun _ => 0%R) (fun _ _ _ _ => Ok JNull)
        (fun k => match k with O => Some "database is locked" | S _ => None end)
        (fun _ _ => None) (fun _ => None) "".

(** The same front-page story on every poll of HackerNews. *)
Definition story : json :=
  JObj [("objectID", JStr "41"); ("title", JStr "Markets rally")].

Definition hackernews_env : Env :=
  mkEnv (fun _ => 0%R)
        (fun _ url _ _ =>
           if String.eqb url hackernews_url
           then Ok (JObj [("hits", JArr [story])]) else Ok JNull)
        (fun _ => None) (fun _ _ => None) (fun _ => None) "".

(** The same headline on every poll of NewsAPI, with a key configured. *)
Definition headline : json := JObj [("title", JStr "Markets rally")].

Definition newsapi_env : Env :=
  mkEnv (fun _ => 0%R)
        (fun _ url _ _ =>
           if String.eqb url (newsapi_url "k")
           then Ok (JObj [("articles", JArr [headline])]) else Ok JNull)
        (fun _ => None) (fun _ _ => None) (fun _ => None) "k".

(** ** Vocabulary of the further properties *)

(** The exact rate of change that [calc_stats] rounds (line 64). *)
Definition spec_velocity (xs : list R) (first : R) : R :=
  ((List.last xs first - first) / IZR (Z.max (Z.of_nat (length xs) - 1) 1))%R.

(** The dict [prices] as [worker] creates it: the two coins in order, each
    with a window of at most 120 samples. *)
Definition windows_ok (w : World) : Prop :=
  map fst (prices w) = ["bitcoin"; "ethereum"]
  ∧ Forall (fun entry => length entry.2 ≤ 120) (prices w).

(** What a tick stores and publishes. *)
Definition published (w : World)
    : list Row * list Narrative * list Row * list Narrative
      * gmap nat (list Payload) * gset nat :=
  (st_scores w, st_narratives w, db_scores w, db_narratives w, queues w, st_clients w).

(** Tables and queues only get longer, the registry only gets smaller. *)
Definition append_only (w w' : World) : Prop :=
  db_scores w `prefix_of` db_scores w'
  ∧ db_narratives w `prefix_of` db_narratives w'
  ∧ db_incidents w `prefix_of` db_incidents w'
  ∧ st_clients w' ⊆ st_clients w
  ∧ ∀ q, received w q `prefix_of` received w' q.

(** ** Routes that read the state (lines 196-206) *)

(** [/api/scores]: [state["scores"]] *)
Definition api_scores (w : World) : list Row := st_scores w.

(** [/api/narratives]: [state["narratives"][-50:]] *)
Definition api_narratives (w : World) : list Narrative := py_tail 50 (st_narratives w).

(** [/api/incidents]: [state["incidents"][-50:]] *)
Definition api_incidents (w : World) : list Incident := py_tail 50 (st_incidents w).

(** CoinGecko answers a price for bitcoin and a bare number for ethereum;
    every other source answers [null]. *)
Definition lopsided_env : Env :=
  mkEnv (fun _ => 0%R)
        (fun _ url _ _ =>
           if String.eqb url coingecko_url
           then Ok (JObj [("bitcoin", JObj [("usd", JInt 50000)]);
                          ("ethereum", JInt 7)])
           else Ok JNull)
        (fun _ => None) (fun _ _ => None) (fun _ => None) "".

(** The fields a broadcast does not write. *)
Definition beside_delivery (w : World) :=
  (st_scores w, st_narratives w, st_incidents w, db_scores w, db_narratives w,
   db_incidents w, prices w, hn_seen w, reddit_seen w, n_clock w, n_http w, n_db w).

(** Equality of two floats, as [==] decides it. *)
#[global] Instance R_eq_dec : EqDecision R := Req_dec_T.

(** A narrative item of source [src] stamped [now] with a non-empty
    title. *)
Definition item_of (src : string) (now : R) (item : Narrative) : Prop :=
  source item = src ∧ n_t item = now ∧ truthy (title item) = true.

(** The extension of [narratives] by one item loop: some items of the
    loop's source, at most one per element visited. *)
Definition extended (src : string) (now : R) (before : list Narrative)
    (i : nat) (after : list Narrative) : Prop :=
  ∃ new, after = before ++ new ∧ length new ≤ i ∧ Forall (item_of src now) new.

(** CoinGecko answers a price for both coins; every other source answers
    [null]. *)
Definition market_env : Env :=
  mkEnv (fun _ => 0%R)
        (fun _ url _ _ =>
           if String.eqb url coingecko_url
           then Ok (JObj [("bitcoin", JObj [("usd", JInt 50000)]);
                          ("ethereum", JObj [("usd", JInt 3000)])])
           else Ok JNull)
        (fun _ => None) (fun _ _ => None) (fun _ => None) "".

(** Nobody joins the registry, and a queue outside it receives nothing. *)
Definition outsiders_silent (w w' : World) : Prop :=
  st_clients w' ⊆ st_clients w
  ∧ ∀ q, q ∉ st_clients w → received w' q = received w q.

(* ===================================================================== *)
(** * Part II. Theorems                                                    *)
(* ===================================================================== *)

Section StatsEngine.
Local Open Scope R_scope.

Lemma py_div_ok x d : d ≠ 0 → py_div x d = Ok (x / d).
Proof. intros Hd. unfold py_div. destruct (Req_dec_T d 0); [contradiction | reflexivity]. Qed.

Lemma round_half_even_bounds (x : R) (a b : Z) :
  IZR a <= x <= IZR b → (a <= round_half_even x <= b)%Z.
Proof.
  intros [Ha Hb]. unfold round_half_even.
  pose proof (Zfloor_bound x) as [Hf1 Hf2].
  assert (a <= Zfloor x)%Z by (apply Zfloor_lub; exact Ha).
  assert (Zfloor x <= b)%Z.
  { apply le_IZR. lra. }
  destruct (Rlt_dec _ _) as [Hlt | Hnlt]; [lia |].
  assert (Zfloor x < b)%Z.
  { apply lt_IZR. lra. }
  repeat destruct (Rlt_dec _ _); try destruct (Z.even _); lia.
Qed.

Lemma round_half_even_IZR (z : Z) : round_half_even (IZR z) = z.
Proof.
  pose proof (round_half_even_bounds (IZR z) z z) as H.
  assert (z <= round_half_even (IZR z) <= z)%Z by (apply H; lra). lia.
Qed.

Lemma pow10_pos (n : nat) : 0 < 10 ^ n.
Proof. apply pow_lt. lra. Qed.

Lemma div_le_1 (x d : R) : 0 < d → x <= d → x / d <= 1.
Proof.
  intros Hd Hx. apply (Rmult_le_reg_r d); [exact Hd |].
  unfold Rdiv. rewrite Rmult_assoc, Rinv_l by lra. lra.
Qed.

Lemma div_pos (x d : R) : 0 < x → 0 < d → 0 < x / d.
Proof. intros Hx Hd. apply Rmult_lt_0_compat; [exact Hx | apply Rinv_0_lt_compat; exact Hd]. Qed.

(** Rounding leaves a decimal with at most [n] places unchanged. *)
Lemma py_round_exact (z : Z) (n : nat) (x : R) :
  x * 10 ^ n = IZR z → py_round x n = x.
Proof.
  intros Hx. unfold py_round. rewrite Hx, round_half_even_IZR, <- Hx.
  pose proof (pow10_pos n). field. lra.
Qed.

Lemma py_round_0 n : py_round 0 n = 0.
Proof. apply (py_round_exact 0). lra. Qed.

Lemma py_round_1 n : py_round 1 n = 1.
Proof.
  apply (py_round_exact (10 ^ Z.of_nat n)).
  rewrite Rmult_1_l. rewrite <- pow_IZR. reflexivity.
Qed.

(** Rounding is monotone enough to keep a value of [[0,1]] inside [[0,1]]. *)
Lemma py_round_unit_interval (x : R) (n : nat) :
  0 <= x <= 1 → 0 <= py_round x n <= 1.
Proof.
  intros [H0 H1]. unfold py_round.
  pose proof (pow10_pos n) as Hp.
  assert (Hb : (0 <= round_half_even (x * 10 ^ n) <= 10 ^ Z.of_nat n)%Z).
  { apply round_half_even_bounds. rewrite <- pow_IZR. simpl (IZR 0). nra. }
  destruct Hb as [Hb0 Hb1]. apply IZR_le in Hb0, Hb1.
  rewrite <- pow_IZR in Hb1. simpl (IZR 10) in Hb1.
  split.
  - apply Rmult_le_pos; [exact Hb0 | left; apply Rinv_0_lt_compat; exact Hp].
  - apply div_le_1; [exact Hp | lra].
Qed.

Lemma fold_left_Rplus_acc (xs : list R) (a : R) :
  fold_left Rplus xs a = a + fold_left Rplus xs 0.
Proof.
  revert a. induction xs as [| x xs IH]; intros a; simpl.
  - lra.
  - rewrite (IH (a + x)), (IH (0 + x)). lra.
Qed.

Lemma py_sum_nil : py_sum [] = 0.
Proof. reflexivity. Qed.

Lemma py_sum_cons x xs : py_sum (x :: xs) = x + py_sum xs.
Proof. unfold py_sum. simpl. rewrite fold_left_Rplus_acc. lra. Qed.

Lemma py_sum_nonneg (xs : list R) :
  Forall (fun x => 0 <= x) xs → 0 <= py_sum xs.
Proof.
  induction 1 as [| x xs Hx _ IH]; [rewrite py_sum_nil; lra |].
  rewrite py_sum_cons. lra.
Qed.

Lemma py_sum_zero_inv (xs : list R) :
  Forall (fun x => 0 <= x) xs → py_sum xs = 0 → Forall (fun x => x = 0) xs.
Proof.
  induction 1 as [| x xs Hx Hxs IH]; intros Hs; [constructor |].
  rewrite py_sum_cons in Hs. pose proof (py_sum_nonneg xs Hxs).
  constructor; [lra | apply IH; lra].
Qed.

Lemma py_sum_const (c : R) (xs : list R) :
  Forall (fun x => x = c) xs → py_sum xs = INR (length xs) * c.
Proof.
  induction 1 as [| x xs Hx _ IH]; [simpl; rewrite py_sum_nil; lra |].
  rewrite py_sum_cons, IH, Hx. cbn [length]. rewrite S_INR. lra.
Qed.

Lemma squares_nonneg (m : R) (xs : list R) :
  Forall (fun x => 0 <= x) (map (fun x => (x - m) ^ 2) xs).
Proof. apply Forall_map, Forall_forall. intros x _. apply pow2_ge_0. Qed.

Lemma INR_length_pos {A} (x : A) (xs : list A) : 0 < INR (length (x :: xs)).
Proof. apply lt_0_INR. simpl. lia. Qed.

Lemma spec_pvariance_nonneg (xs : list R) :
  xs ≠ [] →
  0 <= py_sum (map (fun x => (x - spec_mean xs) ^ 2) xs) / INR (length xs).
Proof.
  intros Hne. destruct xs as [| x xs]; [contradiction |].
  apply Rmult_le_pos.
  - apply py_sum_nonneg, squares_nonneg.
  - left. apply Rinv_0_lt_compat, INR_length_pos.
Qed.

Lemma spec_pstdev_nonneg (xs : list R) : 0 <= spec_pstdev xs.
Proof. apply sqrt_pos. Qed.

(** The divisor of the velocity, [max(len(series)-1, 1)]. *)
Lemma velocity_divisor_pos (n : nat) : 1 <= IZR (Z.max (Z.of_nat n - 1) 1).
Proof. apply IZR_le. lia. Qed.

(** On a non-empty series every division of [calc_stats] goes through, and
    the three results are the rounded mean, rate of change and trust. *)
Lemma calc_stats_nonempty (series : list R) (first : R) :
  head series = Some first →
  calc_stats series =
    Ok (py_round (spec_mean series) 3,
        py_round ((List.last series first - first)
                  / IZR (Z.max (Z.of_nat (length series) - 1) 1)) 3,
        py_round (spec_trust series) 3).
Proof.
  destruct series as [| x xs]; [discriminate |].
  intros [= ->]. unfold calc_stats.
  pose proof (INR_length_pos first xs) as Hn.
  pose proof (velocity_divisor_pos (length (first :: xs))) as Hv.
  pose proof (spec_pstdev_nonneg (first :: xs)) as Hs.
  rewrite py_div_ok by lra. cbn [mbind Res_bind].
  rewrite py_div_ok by lra. cbn [mbind Res_bind].
  rewrite py_div_ok by lra. cbn [mbind Res_bind].
  unfold pow_half. fold (spec_mean (first :: xs)). fold (spec_pstdev (first :: xs)).
  rewrite py_div_ok by lra. cbn [mbind Res_bind].
  reflexivity.
Qed.

Lemma spec_trust_bounds (xs : list R) : 0 < spec_trust xs <= 1.
Proof.
  unfold spec_trust. pose proof (spec_pstdev_nonneg xs) as Hs. split.
  - apply div_pos; lra.
  - apply div_le_1; lra.
Qed.

Lemma spec_trust_one_iff_pstdev_zero (xs : list R) :
  spec_trust xs = 1 ↔ spec_pstdev xs = 0.
Proof.
  unfold spec_trust. pose proof (spec_pstdev_nonneg xs) as Hs. split.
  - intros H. apply (f_equal (fun t => t * (1 + spec_pstdev xs))) in H.
    unfold Rdiv in H. rewrite Rmult_assoc, Rinv_l in H by lra. lra.
  - intros ->. field.
Qed.

Lemma all_equal_mean (x : R) (xs : list R) :
  all_equal (x :: xs) → spec_mean (x :: xs) = x.
Proof.
  intros Heq. unfold spec_mean.
  rewrite (py_sum_const x).
  - pose proof (INR_length_pos x xs). field. lra.
  - apply Forall_forall. intros y Hy. apply Heq; [exact Hy | left].
Qed.

Lemma pstdev_zero_iff_all_equal (xs : list R) :
  xs ≠ [] → (spec_pstdev xs = 0 ↔ all_equal xs).
Proof.
  intros Hne. destruct xs as [| x0 xs]; [contradiction |].
  set (l := x0 :: xs) in *. split.
  - intros Hz. unfold spec_pstdev in Hz.
    apply sqrt_eq_0 in Hz; [| apply spec_pvariance_nonneg; exact Hne].
    pose proof (INR_length_pos x0 xs) as Hn. fold l in Hn.
    assert (Hsum : py_sum (map (fun x => (x - spec_mean l) ^ 2) l) = 0).
    { apply (f_equal (fun t => t * INR (length l))) in Hz.
      unfold Rdiv in Hz. rewrite Rmult_assoc, Rinv_l in Hz by lra. lra. }
    apply py_sum_zero_inv in Hsum; [| apply squares_nonneg].
    rewrite Forall_map, Forall_forall in Hsum.
    assert (Hm : ∀ x, x ∈ l → x = spec_mean l).
    { intros x Hx. specialize (Hsum x Hx). simpl in Hsum. nra. }
    intros x y Hx Hy. rewrite (Hm x Hx), (Hm y Hy). reflexivity.
  - subst l. intros Heq. unfold spec_pstdev.
    rewrite (all_equal_mean x0 xs Heq).
    rewrite (py_sum_const 0).
    + unfold Rdiv. rewrite Rmult_0_r, Rmult_0_l. apply sqrt_0.
    + apply Forall_map, Forall_forall. intros y Hy.
      rewrite (Heq y x0 Hy); [simpl; lra | left].
Qed.

Lemma round_half_even_down (x : R) (z : Z) :
  IZR z <= x < IZR z + 1 / 2 → round_half_even x = z.
Proof.
  intros [H1 H2]. unfold round_half_even.
  rewrite (Zfloor_eq z x) by lra.
  destruct (Rlt_dec _ _); [reflexivity | lra].
Qed.

Lemma round_half_even_up (x : R) (z : Z) :
  IZR z + 1 / 2 < x < IZR z + 1 → round_half_even x = (z + 1)%Z.
Proof.
  intros [H1 H2]. unfold round_half_even.
  rewrite (Zfloor_eq z x) by lra.
  destruct (Rlt_dec _ _); [lra |].
  destruct (Rlt_dec _ _); [reflexivity | lra].
Qed.

Lemma all_equal_singleton (x : R) : all_equal [x].
Proof. intros a b Ha Hb. apply list_elem_of_singleton in Ha, Hb. congruence. Qed.

Lemma spec_trust_all_equal (xs : list R) :
  xs ≠ [] → all_equal xs → spec_trust xs = 1.
Proof.
  intros Hne Heq. apply spec_trust_one_iff_pstdev_zero.
  apply pstdev_zero_iff_all_equal; assumption.
Qed.

(** [calc_stats] at a one-element series. *)
Lemma calc_stats_singleton (x : R) :
  calc_stats [x] = Ok (py_round x 3, 0, 1).
Proof.
  rewrite (calc_stats_nonempty [x] x) by reflexivity.
  rewrite (spec_trust_all_equal [x]) by (try discriminate; apply all_equal_singleton).
  rewrite py_round_1.
  replace (spec_mean [x]) with x
    by (unfold spec_mean; rewrite py_sum_cons, py_sum_nil; simpl; field).
  replace ((List.last [x] x - x) / _) with 0 by (simpl; lra).
  rewrite py_round_0. reflexivity.
Qed.

(** [calc_stats] at the two-element series [[0; 10000]]. *)
Lemma calc_stats_0_10000 : calc_stats [0; 10000] = Ok (5000, 10000, 0).
Proof.
  rewrite (calc_stats_nonempty [0; 10000] 0) by reflexivity.
  assert (Hm : spec_mean [0; 10000] = 5000).
  { unfold spec_mean. rewrite !py_sum_cons, py_sum_nil. simpl. lra. }
  assert (Hs : spec_pstdev [0; 10000] = 5000).
  { unfold spec_pstdev. rewrite Hm. cbn [map]. rewrite !py_sum_cons, py_sum_nil.
    replace (_ / _) with (5000 * 5000) by (simpl; lra).
    apply sqrt_square. lra. }
  unfold spec_trust. rewrite Hm, Hs.
  change (Z.max (Z.of_nat (length [0; 10000]) - 1) 1) with 1%Z.
  replace ((List.last [0; 10000] 0 - 0) / _) with 10000 by (simpl; lra).
  rewrite (py_round_exact 5000000 3 5000) by (simpl; lra).
  rewrite (py_round_exact 10000000 3 10000) by (simpl; lra).
  unfold py_round. rewrite (round_half_even_down _ 0) by (simpl; lra).
  repeat f_equal. simpl. lra.
Qed.

(** [calc_stats] at the one-element series [[1/10000]]. *)
Lemma calc_stats_small : calc_stats [1 / 10000] = Ok (0, 0, 1).
Proof.
  rewrite calc_stats_singleton.
  unfold py_round. rewrite (round_half_even_down _ 0) by (simpl; lra).
  repeat f_equal. simpl. lra.
Qed.






Lemma calc_stats_returns (series : list R) : ∃ r, calc_stats series = Ok r.
Proof.
  destruct series as [| x xs]; [eexists; reflexivity |].
  eexists. apply (calc_stats_nonempty (x :: xs) x). reflexivity.
Qed.


End StatsEngine.

(** ** Reasoning about coroutines *)

Section Monad.

Lemma bind_unfold {A B} (m : M A) (f : A → M B) (w : World) :
  (m ≫= f) w = match m w with
               | (w', Ok a) => f a w'
               | (w', Raise e) => (w', Raise e)
               end.
Proof. reflexivity. Qed.

Lemma bind_ok {A B} (m : M A) (f : A → M B) (w w' : World) (a : A) :
  m w = (w', Ok a) → (m ≫= f) w = f a w'.
Proof. intros H. rewrite bind_unfold, H. reflexivity. Qed.

Lemma bind_raise {A B} (m : M A) (f : A → M B) (w w' : World) (e : exn) :
  m w = (w', Raise e) → (m ≫= f) w = (w', Raise e).
Proof. intros H. rewrite bind_unfold, H. reflexivity. Qed.

Lemma try_ok {A} (m : M A) (h : exn → M A) (w w' : World) (a : A) :
  m w = (w', Ok a) → try_except m h w = (w', Ok a).
Proof. intros H. unfold try_except. rewrite H. reflexivity. Qed.

Lemma try_raise {A} (m : M A) (h : exn → M A) (w w' : World) (e : exn) :
  m w = (w', Raise e) → try_except m h w = h e w'.
Proof. intros H. unfold try_except. rewrite H. reflexivity. Qed.

End Monad.

(** A relation [P] between the world before and after, kept by every
    step of a coroutine, is kept by the coroutine. *)
Section Steps.

Variable P : World → World → Prop.
Hypothesis P_refl : ∀ w, P w w.
Hypothesis P_trans : ∀ w1 w2 w3, P w1 w2 → P w2 w3 → P w1 w3.

Lemma steps_ret {A} (a : A) : steps P (mret a).
Proof. intros w. apply P_refl. Qed.

Lemma steps_lift {A} (r : Res A) : steps P (lift r).
Proof. intros w. apply P_refl. Qed.

Lemma steps_gets {A} (f : World → A) : steps P (gets f).
Proof. intros w. apply P_refl. Qed.

Lemma steps_bind {A B} (m : M A) (f : A → M B) :
  steps P m → (∀ a, steps P (f a)) → steps P (m ≫= f).
Proof.
  intros Hm Hf w. rewrite bind_unfold. specialize (Hm w).
  destruct (m w) as [w' [a | e]]; simpl in *; [| exact Hm].
  eapply P_trans; [exact Hm | apply Hf].
Qed.

Lemma steps_try {A} (m : M A) (h : exn → M A) :
  steps P m → (∀ e, steps P (h e)) → steps P (try_except m h).
Proof.
  intros Hm Hh w. unfold try_except. specialize (Hm w).
  destruct (m w) as [w' [a | e]]; simpl in *; [exact Hm |].
  eapply P_trans; [exact Hm | apply Hh].
Qed.

Lemma steps_fold_m {A B} (f : B → A → M B) (xs : list A) (b : B) :
  (∀ b x, steps P (f b x)) → steps P (fold_m f xs b).
Proof.
  intros Hf. revert b. induction xs as [| x xs IH]; intros b; simpl.
  - apply steps_ret.
  - apply steps_bind; [apply Hf | intros b'; apply IH].
Qed.

Lemma steps_for_each {A} (xs : list A) (body : A → M unit) :
  (∀ x, steps P (body x)) → steps P (for_each xs body).
Proof. intros Hb. apply steps_fold_m. intros _ x. apply Hb. Qed.

Lemma steps_modify (f : World → World) :
  (∀ w, P w (f w)) → steps P (modify f).
Proof. intros Hf w. apply Hf. Qed.

End Steps.

(** Decomposes a coroutine into its primitive steps. *)
Ltac steps_split :=
  repeat match goal with
    | |- steps _ (mret _) => apply steps_ret; assumption
    | |- steps _ (lift _) => apply steps_lift; assumption
    | |- steps _ (gets _) => apply steps_gets; assumption
    | |- steps _ (mbind _ _) => apply steps_bind; [assumption | | intros ?]
    | |- steps _ (try_except _ _) => apply steps_try; [assumption | | intros ?]
    | |- steps _ (fold_m _ _ _) => apply steps_fold_m; [assumption | assumption | intros ? ?]
    | |- steps _ (for_each _ _) => apply steps_for_each; [assumption | assumption | intros ?]
    | |- steps _ (if ?c then _ else _) => destruct c
    | |- steps _ (match ?l with [] => _ | _ :: _ => _ end) => destruct l
    end.

Lemma gets_bind {A B} (f : World → A) (k : A → M B) (w : World) :
  (gets f ≫= k) w = k (f w) w.
Proof. reflexivity. Qed.

Lemma modify_bind {B} (f : World → World) (k : M B) (w : World) :
  (modify f;; k) w = k (f w).
Proof. reflexivity. Qed.

(** A relation that only looks at the snapshots of narratives and
    incidents and at the two dedup sets is kept by a whole iteration of
    the worker as soon as it is kept by the four places that write them. *)
Section TickSteps.

Variable P : World → World → Prop.
Hypothesis P_refl : ∀ w, P w w.
Hypothesis P_trans : ∀ w1 w2 w3, P w1 w2 → P w2 w3 → P w1 w3.
Hypothesis P_frame : ∀ w w',
  st_narratives w' = st_narratives w → st_incidents w' = st_incidents w →
  hn_seen w' = hn_seen w → reddit_seen w' = reddit_seen w → P w w'.
Hypothesis P_log : ∀ env kind msg, steps P (log_incident env kind msg).
Hypothesis P_hn : ∀ k w, P w (set_hn_seen (hn_seen w ∪ {[k]}) w).
Hypothesis P_reddit : ∀ k w, P w (set_reddit_seen (reddit_seen w ∪ {[k]}) w).
Hypothesis P_latest : ∀ new w,
  P w (set_st_narratives (py_tail 50 (st_narratives w ++ new)) w).

Local Ltac framed := intros ?; apply P_frame; reflexivity.
Local Ltac split_steps :=
  steps_split;
  try match goal with |- steps _ (modify _) => apply steps_modify; framed end.

Lemma steps_time_time env : steps P (time_time env).
Proof. framed. Qed.

Lemma steps_client_get env url timeout headers :
  steps P (client_get env url timeout headers).
Proof. framed. Qed.

Lemma steps_db_transaction env writes :
  (∀ w, P w (writes w)) → steps P (db_transaction env writes).
Proof.
  intros Hw w. unfold db_transaction.
  destruct (db_commit env (n_db w)); simpl.
  - apply P_frame; reflexivity.
  - eapply P_trans; [| apply Hw]. apply P_frame; reflexivity.
Qed.

Lemma steps_q_put env q payload : steps P (q_put env q payload).
Proof.
  intros w. unfold q_put. destruct (queue_put env (n_put w) q); simpl;
    apply P_frame; reflexivity.
Qed.

Lemma steps_fetch_json env url timeout headers :
  steps P (fetch_json env url timeout headers).
Proof.
  unfold fetch_json. split_steps.
  - apply steps_client_get.
  - apply P_log.
Qed.

Lemma steps_broadcast env payload : steps P (broadcast env payload).
Proof. unfold broadcast. split_steps. apply steps_q_put. Qed.

Lemma steps_push_scores env rows : steps P (push_scores env rows).
Proof. unfold push_scores. split_steps. apply steps_broadcast. Qed.

Lemma steps_fetch_prices env : steps P (fetch_prices env).
Proof. unfold fetch_prices. split_steps. apply steps_fetch_json. Qed.

Lemma steps_fetch_wiki env : steps P (fetch_wiki env).
Proof. unfold fetch_wiki. split_steps. apply steps_fetch_json. Qed.

Lemma steps_accept_item_hn now id title narratives :
  steps P (accept_item hn_seen (fun k w => set_hn_seen (hn_seen w ∪ {[k]}) w)
             "HackerNews" now id title narratives).
Proof. unfold accept_item. split_steps. apply steps_modify. intros w. apply P_hn. Qed.

Lemma steps_accept_item_reddit now id title narratives :
  steps P (accept_item reddit_seen
             (fun k w => set_reddit_seen (reddit_seen w ∪ {[k]}) w)
             "Reddit/technology" now id title narratives).
Proof. unfold accept_item. split_steps. apply steps_modify. intros w. apply P_reddit. Qed.

Lemma steps_fetch_hackernews env now : steps P (fetch_hackernews env now).
Proof.
  unfold fetch_hackernews. split_steps;
    first [apply steps_fetch_json | apply steps_accept_item_hn].
Qed.

Lemma steps_fetch_reddit env now narratives :
  steps P (fetch_reddit env now narratives).
Proof.
  unfold fetch_reddit. split_steps;
    first [apply steps_fetch_json | apply steps_accept_item_reddit].
Qed.

Lemma steps_fetch_newsapi env now narratives :
  steps P (fetch_newsapi env now narratives).
Proof. unfold fetch_newsapi. split_steps; apply steps_fetch_json. Qed.

Lemma steps_compute_scores env now wiki_vals :
  steps P (compute_scores env now wiki_vals).
Proof. unfold compute_scores. split_steps. Qed.

Lemma steps_persist env rows narratives : steps P (persist env rows narratives).
Proof. unfold persist. apply steps_db_transaction. framed. Qed.

Lemma steps_publish env rows narratives : steps P (publish env rows narratives).
Proof.
  unfold publish. apply steps_bind; try assumption; [apply steps_push_scores |].
  intros _. destruct narratives as [| n ns]; [apply steps_ret; assumption |].
  intros w. rewrite modify_bind, gets_bind.
  eapply P_trans; [apply P_latest |].
  unfold push_narratives. rewrite modify_bind.
  eapply P_trans; [| apply steps_broadcast]. apply P_frame; reflexivity.
Qed.

Lemma steps_tick_body env : steps P (tick_body env).
Proof.
  unfold tick_body. split_steps;
    first [ apply steps_time_time | apply steps_fetch_prices | apply steps_fetch_wiki
          | apply steps_fetch_hackernews | apply steps_fetch_reddit
          | apply steps_fetch_newsapi | apply steps_compute_scores
          | apply steps_persist | apply steps_publish ].
Qed.

Lemma steps_tick env : steps P (tick env).
Proof. unfold tick. split_steps; [apply steps_tick_body | apply P_log]. Qed.

Lemma steps_worker_loop env n : steps P (worker_loop env n).
Proof.
  induction n as [| n IH]; simpl; [apply steps_ret; assumption |].
  apply steps_bind; try assumption; [apply steps_tick | intros _; exact IH].
Qed.

End TickSteps.

(** ** Slices that keep the most recent entries *)

Section Tails.
Context {A : Type}.
Implicit Types (xs ys : list A) (n : nat).

Lemma length_py_tail n xs : length (py_tail n xs) = n `min` length xs.
Proof. unfold py_tail. rewrite length_drop. lia. Qed.

Lemma py_tail_all n xs : length xs ≤ n → py_tail n xs = xs.
Proof.
  intros H. unfold py_tail. replace (length xs - n) with 0 by lia. reflexivity.
Qed.

Lemma py_tail_suffix n xs : take (length xs - n) xs ++ py_tail n xs = xs.
Proof. apply take_drop. Qed.

(** Trimming after every append is trimming once at the end. *)
Lemma py_tail_app_tail n xs ys :
  py_tail n (py_tail n xs ++ ys) = py_tail n (xs ++ ys).
Proof.
  destruct (decide (length xs ≤ n)) as [Hle | Hgt].
  - rewrite (py_tail_all n xs) by exact Hle. reflexivity.
  - pose proof (py_tail_suffix n xs) as Hs.
    pose proof (length_py_tail n xs) as Hl.
    set (t := py_tail n xs) in *. set (pre := take _ xs) in *.
    clearbody t pre. subst xs. rewrite length_app in Hl, Hgt.
    unfold py_tail. rewrite <- app_assoc, !length_app.
    replace (length pre + (length t + length ys) - n)
      with (length pre + (length t + length ys - n)) by lia.
    rewrite drop_app_add. reflexivity.
Qed.

Lemma py_tail_nil n xs : py_tail n (xs ++ []) = py_tail n xs.
Proof. rewrite app_nil_r. reflexivity. Qed.

End Tails.

(** ** The sample window (lines 114-115) *)

Section Window.

Lemma dict_alter_compose (f g : list R → list R) (k : string)
    (d : list (string * list R)) :
  dict_alter g k (dict_alter f k d) = dict_alter (g ∘ f) k d.
Proof.
  induction d as [| [k' xs] d IH]; simpl.
  - rewrite String.eqb_refl. reflexivity.
  - destruct (String.eqb k' k) eqn:E; simpl; rewrite E; [reflexivity |].
    rewrite IH. reflexivity.
Qed.


Lemma feed_tail (samples window : list R) :
  feed (py_tail 120 window) samples = py_tail 120 (window ++ samples).
Proof.
  revert window. induction samples as [| v vs IH]; intros window; simpl.
  - rewrite app_nil_r. reflexivity.
  - unfold window_push. rewrite py_tail_app_tail, IH, <- app_assoc. reflexivity.
Qed.


End Window.

(** ** Bounded snapshots (narratives: 50, incidents: 100) *)


Section Bounded.

Lemma recent_bounded w w' : recent w w' → bounded w'.
Proof.
  intros [[n1 H1] [n2 H2]]. unfold bounded. rewrite H1, H2, !length_py_tail. lia.
Qed.

Lemma keeps_recent_refl w : keeps_recent w w.
Proof.
  intros [Hn Hi]. split; exists []; rewrite py_tail_nil, py_tail_all; auto.
Qed.

Lemma keeps_recent_trans w1 w2 w3 :
  keeps_recent w1 w2 → keeps_recent w2 w3 → keeps_recent w1 w3.
Proof.
  intros H12 H23 Hb. specialize (H12 Hb).
  specialize (H23 (recent_bounded _ _ H12)).
  destruct H12 as [[a1 Ha1] [b1 Hb1]], H23 as [[a2 Ha2] [b2 Hb2]].
  split; [exists (a1 ++ a2) | exists (b1 ++ b2)].
  - rewrite Ha2, Ha1, py_tail_app_tail, app_assoc. reflexivity.
  - rewrite Hb2, Hb1, py_tail_app_tail, app_assoc. reflexivity.
Qed.

Lemma keeps_recent_same w w' :
  st_narratives w' = st_narratives w → st_incidents w' = st_incidents w →
  keeps_recent w w'.
Proof.
  intros Hn Hi [Bn Bi]. split; exists [];
    rewrite py_tail_nil, py_tail_all; congruence.
Qed.

Lemma keeps_recent_frame w w' :
  st_narratives w' = st_narratives w → st_incidents w' = st_incidents w →
  hn_seen w' = hn_seen w → reddit_seen w' = reddit_seen w → keeps_recent w w'.
Proof. intros Hn Hi _ _. apply keeps_recent_same; assumption. Qed.

(** What [log_incident] leaves in memory, whatever the database says. *)
Lemma log_incident_tail env kind msg w :
  st_incidents (log_incident env kind msg w).1
  = py_tail 100 (st_incidents w ++ [mkIncident kind msg (clock env (n_clock w))])
  ∧ st_narratives (log_incident env kind msg w).1 = st_narratives w.
Proof.
  unfold log_incident. rewrite bind_unfold. simpl.
  rewrite !modify_bind. unfold db_transaction. simpl.
  destruct (db_commit env _); simpl; split; reflexivity.
Qed.

Lemma keeps_recent_log env kind msg : steps keeps_recent (log_incident env kind msg).
Proof.
  intros w [Bn Bi]. destruct (log_incident_tail env kind msg w) as [Hi Hn].
  split.
  - exists []. rewrite Hn, py_tail_nil, py_tail_all; auto.
  - eexists. exact Hi.
Qed.

Lemma keeps_recent_latest new w :
  keeps_recent w (set_st_narratives (py_tail 50 (st_narratives w ++ new)) w).
Proof.
  intros [Bn Bi]. split.
  - exists new. reflexivity.
  - exists []. simpl. rewrite py_tail_nil, py_tail_all; auto.
Qed.

Lemma keeps_recent_tick env : steps keeps_recent (tick env).
Proof.
  apply steps_tick.
  - apply keeps_recent_refl.
  - apply keeps_recent_trans.
  - apply keeps_recent_frame.
  - apply keeps_recent_log.
  - intros k w. apply keeps_recent_same; reflexivity.
  - intros k w. apply keeps_recent_same; reflexivity.
  - apply keeps_recent_latest.
Qed.

Lemma keeps_recent_worker_loop env n : steps keeps_recent (worker_loop env n).
Proof.
  apply steps_worker_loop.
  - apply keeps_recent_refl.
  - apply keeps_recent_trans.
  - apply keeps_recent_frame.
  - apply keeps_recent_log.
  - intros k w. apply keeps_recent_same; reflexivity.
  - intros k w. apply keeps_recent_same; reflexivity.
  - apply keeps_recent_latest.
Qed.



End Bounded.

(** ** Broadcaster *)

Section Broadcaster.

Lemma deliver_step env payload (dead : list nat) q w :
  try_except (q_put env q payload;; mret dead) (fun _ => mret (dead ++ [q])) w
  = match queue_put env (n_put w) q with
    | None => (set_queues (<[q := received w q ++ [payload]]> (queues w))
                          (set_n_put (S (n_put w)) w), Ok dead)
    | Some _ => (set_n_put (S (n_put w)) w, Ok (dead ++ [q]))
    end.
Proof.
  unfold try_except, q_put. rewrite bind_unfold.
  destruct (queue_put env (n_put w) q); reflexivity.
Qed.

Lemma received_put_eq w q payload w0 :
  received (set_queues (<[q := received w q ++ [payload]]> (queues w)) w0) q
  = received w q ++ [payload].
Proof. unfold received at 1. simpl. rewrite lookup_insert_eq. reflexivity. Qed.

Lemma received_put_ne w q q' payload w0 :
  q ≠ q' →
  received (set_queues (<[q := received w q ++ [payload]]> (queues w)) w0) q'
  = received w q'.
Proof. intros Hne. unfold received at 1. simpl. rewrite lookup_insert_ne by exact Hne. reflexivity. Qed.

(** The first loop of [broadcast] over a snapshot without repetitions. *)
Lemma deliver_loop env payload (qs : list nat) :
  NoDup qs → ∀ (dead : list nat) (w : World), ∃ w' dead',
    fold_m (fun dead q =>
              try_except (q_put env q payload;; mret dead)
                         (fun _ => mret (dead ++ [q]))) qs dead w
    = (w', Ok dead')
    ∧ st_clients w' = st_clients w
    ∧ n_put w' = n_put w + length qs
    ∧ (∀ q, q ∉ qs → received w' q = received w q)
    ∧ (∀ i q, qs !! i = Some q →
         match queue_put env (n_put w + i) q with
         | None => received w' q = received w q ++ [payload] ∧ (q ∈ dead' → q ∈ dead)
         | Some _ => received w' q = received w q ∧ q ∈ dead'
         end)
    ∧ (∀ q, q ∈ dead → q ∈ dead')
    ∧ (∀ q, q ∈ dead' → q ∈ dead ∨ q ∈ qs).
Proof.
  induction 1 as [| q0 qs Hnotin Hnd IH]; intros dead w.
  - exists w, dead. simpl. split_and!; auto.
    intros i q Hi. rewrite lookup_nil in Hi. discriminate.
  - cbn [fold_m]. rewrite bind_unfold, deliver_step.
    destruct (queue_put env (n_put w) q0) as [e |] eqn:Hput.
    + destruct (IH (dead ++ [q0]) (set_n_put (S (n_put w)) w))
        as (w' & dead' & Hrun & Hc & Hn & Hout & Hin & Hmono & Hfrom).
      exists w', dead'. rewrite Hrun. simpl in Hn. split_and!.
      * reflexivity.
      * exact Hc.
      * rewrite Hn. simpl. lia.
      * intros q Hq. apply Hout. set_solver.
      * intros [| i] q Hi; simpl in Hi.
        -- injection Hi as <-. rewrite Nat.add_0_r, Hput. split.
           ++ apply Hout. exact Hnotin.
           ++ apply Hmono. set_solver.
        -- specialize (Hin i q Hi). simpl in Hin.
           replace (n_put w + S i) with (S (n_put w + i)) by lia.
           assert (q ≠ q0) by (intros ->; apply Hnotin; eapply list_elem_of_lookup_2; eauto).
           destruct (queue_put env (S (n_put w + i)) q); [exact Hin |].
           destruct Hin as [Hr Hd]. split; [exact Hr |].
           intros Hq. specialize (Hd Hq). set_solver.
      * intros q Hq. apply Hmono. set_solver.
      * intros q Hq. specialize (Hfrom q Hq). set_solver.
    + destruct (IH dead (set_queues (<[q0 := received w q0 ++ [payload]]> (queues w))
                          (set_n_put (S (n_put w)) w)))
        as (w' & dead' & Hrun & Hc & Hn & Hout & Hin & Hmono & Hfrom).
      exists w', dead'. rewrite Hrun. simpl in Hn. split_and!.
      * reflexivity.
      * exact Hc.
      * rewrite Hn. simpl. lia.
      * intros q Hq. rewrite Hout by set_solver.
        apply received_put_ne. set_solver.
      * intros [| i] q Hi; simpl in Hi.
        -- injection Hi as <-. rewrite Nat.add_0_r, Hput. split.
           ++ rewrite Hout by exact Hnotin. apply received_put_eq.
           ++ intros Hq. specialize (Hfrom q0 Hq). set_solver.
        -- specialize (Hin i q Hi). simpl in Hin.
           replace (n_put w + S i) with (S (n_put w + i)) by lia.
           assert (q ≠ q0) by (intros ->; apply Hnotin; eapply list_elem_of_lookup_2; eauto).
           rewrite received_put_ne in Hin by congruence. exact Hin.
      * exact Hmono.
      * intros q Hq. specialize (Hfrom q Hq). set_solver.
Qed.

(** The second loop of [broadcast]: [state["clients"].discard(q)]. *)
Lemma discard_loop (dead : list nat) (w : World) :
  ∃ w', for_each dead (fun q => modify (fun w => set_st_clients (st_clients w ∖ {[q]}) w)) w
        = (w', Ok tt)
        ∧ st_clients w' = st_clients w ∖ list_to_set dead
        ∧ queues w' = queues w
        ∧ n_put w' = n_put w.
Proof.
  revert w. induction dead as [| q dead IH]; intros w.
  - exists w. split_and!; try reflexivity. simpl. set_solver.
  - unfold for_each. cbn [fold_m]. rewrite bind_unfold. cbn [modify].
    destruct (IH (set_st_clients (st_clients w ∖ {[q]}) w)) as (w' & Hrun & Hc & Hq & Hn).
    exists w'. unfold for_each in Hrun. rewrite Hrun. split_and!; try assumption.
    + reflexivity.
    + rewrite Hc. simpl. set_solver.
Qed.

(** C7: one call of [broadcast] puts the message once on the queue of every
    subscriber registered when the call starts, in the order of the
    snapshot; a subscriber whose [put] raises receives nothing and is out
    of the registry when the call returns, every other one is still
    registered and has the message last on its queue; the call itself never
    raises, registers nobody, and touches no other queue. Pruning is part
    of this call: the registry it leaves is the one the next broadcast
    snapshots. *)
Theorem broadcast_fanout (env : Env) (payload : Payload) (w : World) :
  (broadcast env payload w).2 = Ok tt
  ∧ n_put (broadcast env payload w).1 = n_put w + size (st_clients w)
  ∧ (∀ i q, elements (st_clients w) !! i = Some q →
       match queue_put env (n_put w + i) q with
       | None => q ∈ st_clients (broadcast env payload w).1
                 ∧ received (broadcast env payload w).1 q = received w q ++ [payload]
       | Some _ => (q ∉ st_clients (broadcast env payload w).1)
                   ∧ received (broadcast env payload w).1 q = received w q
       end)
  ∧ st_clients (broadcast env payload w).1 ⊆ st_clients w
  ∧ (∀ q, q ∉ st_clients w →
       received (broadcast env payload w).1 q = received w q)
  ∧ (∀ q payload', q ∉ st_clients (broadcast env payload w).1 →
       received (broadcast env payload' (broadcast env payload w).1).1 q
       = received (broadcast env payload w).1 q).
Proof.
  assert (Hmain : ∀ payload w,
    (broadcast env payload w).2 = Ok tt
    ∧ n_put (broadcast env payload w).1 = n_put w + size (st_clients w)
    ∧ (∀ i q, elements (st_clients w) !! i = Some q →
         match queue_put env (n_put w + i) q with
         | None => q ∈ st_clients (broadcast env payload w).1
                   ∧ received (broadcast env payload w).1 q = received w q ++ [payload]
         | Some _ => (q ∉ st_clients (broadcast env payload w).1)
                     ∧ received (broadcast env payload w).1 q = received w q
         end)
    ∧ st_clients (broadcast env payload w).1 ⊆ st_clients w
    ∧ (∀ q, q ∉ st_clients w →
         received (broadcast env payload w).1 q = received w q)).
  { clear payload w. intros payload w.
    unfold broadcast. rewrite gets_bind, bind_unfold.
    destruct (deliver_loop env payload (elements (st_clients w))
                (NoDup_elements _) [] w)
      as (w1 & dead & Hrun & Hc & Hn & Hout & Hin & _ & Hfrom).
    rewrite Hrun.
    destruct (discard_loop dead w1) as (w2 & Hrun2 & Hc2 & Hq2 & Hn2).
    rewrite Hrun2. simpl.
    assert (Hrec : ∀ q, received w2 q = received w1 q)
      by (intros q; unfold received; rewrite Hq2; reflexivity).
    split_and!.
    - reflexivity.
    - rewrite Hn2, Hn. reflexivity.
    - intros i q Hi. specialize (Hin i q Hi).
      assert (Hq : q ∈ st_clients w)
        by (apply elem_of_elements; eapply list_elem_of_lookup_2; eauto).
      rewrite Hrec, Hc2, Hc.
      destruct (queue_put env (n_put w + i) q).
      + destruct Hin as [Hr Hd]. split; [| exact Hr].
        rewrite elem_of_difference, elem_of_list_to_set. tauto.
      + destruct Hin as [Hr Hd]. split; [| exact Hr].
        rewrite elem_of_difference, elem_of_list_to_set. split; [exact Hq |].
        intros Hq'. specialize (Hd Hq'). set_solver.
    - rewrite Hc2, Hc. set_solver.
    - intros q Hq. rewrite Hrec. apply Hout. rewrite elem_of_elements. exact Hq. }
  destruct (Hmain payload w) as (H1 & H2 & H3 & H4 & H5).
  split_and!; try assumption.
  intros q payload' Hq. apply (Hmain payload' _). exact Hq.
Qed.

End Broadcaster.

(** ** IncidentLog and Fetcher *)


Section Fetcher.

Lemma log_incident_commits env kind msg w :
  db_commit env (n_db w) = None →
  log_incident env kind msg w
  = (logged (mkIncident kind msg (clock env (n_clock w))) w, Ok tt).
Proof.
  intros Hdb. unfold log_incident. rewrite bind_unfold. cbn [time_time].
  rewrite !modify_bind. unfold db_transaction. cbn. rewrite Hdb. reflexivity.
Qed.

Lemma log_incident_raises env kind msg w e :
  db_commit env (n_db w) = Some e →
  log_incident env kind msg w
  = (unlogged (mkIncident kind msg (clock env (n_clock w))) w, Raise e).
Proof.
  intros Hdb. unfold log_incident. rewrite bind_unfold. cbn [time_time].
  rewrite !modify_bind. unfold db_transaction. cbn. rewrite Hdb. reflexivity.
Qed.

Lemma fetch_json_ok env url timeout headers w payload :
  http_get env (n_http w) url timeout (headers_or_default headers) = Ok payload →
  fetch_json env url timeout headers w = (set_n_http (S (n_http w)) w, Ok payload).
Proof.
  intros Hget. unfold fetch_json, try_except, client_get. rewrite Hget. reflexivity.
Qed.

Lemma fetch_json_failure env url timeout headers w e :
  http_get env (n_http w) url timeout (headers_or_default headers) = Raise e →
  db_commit env (n_db w) = None →
  fetch_json env url timeout headers w = (failed_fetch env url e w, Ok JNull).
Proof.
  intros Hget Hdb. unfold fetch_json, try_except, client_get. rewrite Hget.
  rewrite bind_unfold, log_incident_commits by exact Hdb. reflexivity.
Qed.

Lemma fetch_json_escapes env url timeout headers w e e' :
  http_get env (n_http w) url timeout (headers_or_default headers) = Raise e →
  db_commit env (n_db w) = Some e' →
  fetch_json env url timeout headers w
  = (unlogged (fetch_error env url e w) (set_n_http (S (n_http w)) w), Raise e').
Proof.
  intros Hget Hdb. unfold fetch_json, try_except, client_get. rewrite Hget.
  rewrite bind_unfold, (log_incident_raises _ _ _ _ e') by exact Hdb. reflexivity.
Qed.

(** A successful CoinGecko poll feeds one sample to each of the two
    windows through [window_push]. *)
Lemma fetch_prices_feeds env w fields eb ub vb ee ue ve :
  http_get env (n_http w) coingecko_url 10 default_headers = Ok (JObj fields) →
  py_get (JObj fields) "bitcoin" (JObj []) = Ok eb →
  py_get eb "usd" (JFloat 0) = Ok ub → py_float env ub = Ok vb →
  py_get (JObj fields) "ethereum" (JObj []) = Ok ee →
  py_get ee "usd" (JFloat 0) = Ok ue → py_float env ue = Ok ve →
  fetch_prices env w
  = (set_prices (dict_alter (window_push ve) "ethereum"
                   (dict_alter (window_push vb) "bitcoin" (prices w)))
                (set_n_http (S (n_http w)) w), Ok tt).
Proof.
  intros Hget Hb1 Hb2 Hb3 He1 He2 He3. unfold fetch_prices.
  rewrite bind_unfold, (fetch_json_ok _ _ _ None _ _ Hget). cbn [is_dict].
  unfold for_each. cbn [fold_m]. unfold lift.
  rewrite Hb1, He1.
  repeat first [ rewrite bind_unfold | rewrite Hb2 | rewrite Hb3 | rewrite He2
               | rewrite He3 | progress cbn [modify mret M_ret]
               | progress cbn beta iota ].
  cbn [prices set_prices]. rewrite !dict_alter_compose. reflexivity.
Qed.

End Fetcher.

(** ** The fetcher's contract *)

Section FetcherContract.





End FetcherContract.

(** ** The tick boundary *)


Section TickBoundary.

Lemma tick_ok env w w1 :
  tick_body env w = (w1, Ok tt) → tick env w = (w1, Ok tt).
Proof. intros H. unfold tick. apply try_ok. exact H. Qed.

Lemma tick_caught env w w1 e :
  tick_body env w = (w1, Raise e) → db_commit env (n_db w1) = None →
  tick env w = (logged (loop_error env e w1) w1, Ok tt).
Proof.
  intros H Hdb. unfold tick. rewrite (try_raise _ _ _ _ _ H).
  apply log_incident_commits. exact Hdb.
Qed.

Lemma tick_escapes env w w1 e e' :
  tick_body env w = (w1, Raise e) → db_commit env (n_db w1) = Some e' →
  tick env w = (unlogged (loop_error env e w1) w1, Raise e').
Proof.
  intros H Hdb. unfold tick. rewrite (try_raise _ _ _ _ _ H).
  apply log_incident_raises. exact Hdb.
Qed.

Lemma worker_loop_next env n w w' :
  tick env w = (w', Ok tt) → worker_loop env (S n) w = worker_loop env n w'.
Proof. intros H. cbn [worker_loop]. rewrite bind_unfold, H. reflexivity. Qed.

Lemma worker_loop_ends env n w w' e :
  tick env w = (w', Raise e) → worker_loop env (S n) w = (w', Raise e).
Proof. intros H. cbn [worker_loop]. rewrite bind_unfold, H. reflexivity. Qed.




End TickBoundary.

(** ** A source whose fetch fails *)

Section Degradation.

Lemma fetch_prices_failure env w e :
  http_get env (n_http w) coingecko_url 10 default_headers = Raise e →
  db_commit env (n_db w) = None →
  fetch_prices env w = (failed_fetch env coingecko_url e w, Ok tt).
Proof.
  intros Hget Hdb. unfold fetch_prices.
  rewrite bind_unfold, (fetch_json_failure _ _ _ None _ e) by assumption.
  reflexivity.
Qed.

Lemma fetch_wiki_failure env w e :
  http_get env (n_http w) wikimedia_url 10 default_headers = Raise e →
  db_commit env (n_db w) = None →
  fetch_wiki env w = (failed_fetch env wikimedia_url e w, Ok []).
Proof.
  intros Hget Hdb. unfold fetch_wiki.
  rewrite bind_unfold, (fetch_json_failure _ _ _ None _ e) by assumption.
  reflexivity.
Qed.

Lemma fetch_hackernews_failure env now w e :
  http_get env (n_http w) hackernews_url 10 default_headers = Raise e →
  db_commit env (n_db w) = None →
  fetch_hackernews env now w = (failed_fetch env hackernews_url e w, Ok []).
Proof.
  intros Hget Hdb. unfold fetch_hackernews.
  rewrite bind_unfold, (fetch_json_failure _ _ _ None _ e) by assumption.
  reflexivity.
Qed.

Lemma fetch_reddit_failure env now narratives w e :
  http_get env (n_http w) reddit_url 10 reddit_headers = Raise e →
  db_commit env (n_db w) = None →
  fetch_reddit env now narratives w = (failed_fetch env reddit_url e w, Ok narratives).
Proof.
  intros Hget Hdb. unfold fetch_reddit.
  rewrite bind_unfold, (fetch_json_failure _ _ _ (Some reddit_headers) _ e) by assumption.
  reflexivity.
Qed.

Lemma fetch_newsapi_failure env now narratives w e :
  NEWSAPI_KEY env ≠ "" →
  http_get env (n_http w) (newsapi_url (NEWSAPI_KEY env)) 10 default_headers = Raise e →
  db_commit env (n_db w) = None →
  fetch_newsapi env now narratives w
  = (failed_fetch env (newsapi_url (NEWSAPI_KEY env)) e w, Ok narratives).
Proof.
  intros Hkey Hget Hdb. unfold fetch_newsapi.
  destruct (String.eqb_spec (NEWSAPI_KEY env) "") as [Heq | _]; [contradiction |].
  rewrite bind_unfold, (fetch_json_failure _ _ _ None _ e) by assumption.
  reflexivity.
Qed.

Lemma score_row_returns row_name now series :
  ∃ row, score_row row_name now series = Ok row ∧ name row = row_name.
Proof.
  unfold score_row. destruct (calc_stats_returns series) as [r Hr].
  rewrite Hr. eexists. split; reflexivity.
Qed.

(** The loop of lines 158-160: one row per window, in the order of the
    dict. *)
Lemma price_rows_loop now (windows : list (string * list R)) (acc : list Row) w :
  ∃ rows,
    fold_m (fun rows entry =>
              row ← lift (score_row entry.1 now entry.2);
              mret (rows ++ [row])) windows acc w
    = (w, Ok (acc ++ rows))
    ∧ map name rows = map fst windows.
Proof.
  revert acc. induction windows as [| [k xs] windows IH]; intros acc.
  - exists []. rewrite app_nil_r. split; reflexivity.
  - destruct (score_row_returns k now xs) as (row & Hrow & Hname).
    destruct (IH (acc ++ [row])) as (rows & Hrun & Hnames).
    exists (row :: rows). cbn [fold_m]. rewrite bind_unfold.
    cbn [fst snd]. rewrite bind_unfold. unfold lift at 1. rewrite Hrow.
    cbn [mret M_ret]. rewrite Hrun, <- app_assoc. split; [reflexivity |].
    simpl. rewrite Hname, Hnames. reflexivity.
Qed.

Lemma compute_scores_without_wiki env now w :
  ∃ rows, compute_scores env now [] w = (w, Ok rows)
          ∧ map name rows = map fst (prices w).
Proof.
  destruct (price_rows_loop now (prices w) [] w) as (rows & Hrun & Hnames).
  exists rows. unfold compute_scores. rewrite gets_bind, bind_unfold, Hrun.
  split; [reflexivity | exact Hnames].
Qed.




End Degradation.

(** ** Dedup of item feeds *)


Section Dedup.

Lemma seen_grows_refl w : seen_grows w w.
Proof. split; reflexivity. Qed.

Lemma seen_grows_trans w1 w2 w3 :
  seen_grows w1 w2 → seen_grows w2 w3 → seen_grows w1 w3.
Proof. intros [H1 H2] [H3 H4]. split; etrans; eassumption. Qed.

Lemma seen_grows_frame w w' :
  st_narratives w' = st_narratives w → st_incidents w' = st_incidents w →
  hn_seen w' = hn_seen w → reddit_seen w' = reddit_seen w → seen_grows w w'.
Proof. intros _ _ Hh Hr. split; [rewrite Hh | rewrite Hr]; reflexivity. Qed.

Lemma log_incident_seen env kind msg w :
  hn_seen (log_incident env kind msg w).1 = hn_seen w
  ∧ reddit_seen (log_incident env kind msg w).1 = reddit_seen w.
Proof.
  unfold log_incident. rewrite bind_unfold. simpl.
  rewrite !modify_bind. unfold db_transaction. simpl.
  destruct (db_commit env _); simpl; split; reflexivity.
Qed.

Lemma seen_grows_log env kind msg : steps seen_grows (log_incident env kind msg).
Proof.
  intros w. destruct (log_incident_seen env kind msg w) as [Hh Hr].
  split; [rewrite Hh | rewrite Hr]; reflexivity.
Qed.

Lemma seen_grows_worker_loop env n : steps seen_grows (worker_loop env n).
Proof.
  apply steps_worker_loop.
  - apply seen_grows_refl.
  - apply seen_grows_trans.
  - apply seen_grows_frame.
  - apply seen_grows_log.
  - intros k w. split; simpl; set_solver.
  - intros k w. split; simpl; set_solver.
  - intros new w. split; reflexivity.
Qed.

(** An item whose identifier is in the set is dropped. *)
Lemma accept_item_known (seen : World → gset Key) add src now id title narratives w k :
  py_hash id = Ok k → k ∈ seen w →
  accept_item seen add src now id title narratives w = (w, Ok narratives).
Proof.
  intros Hk Hin. unfold accept_item.
  destruct (truthy id && truthy title); [| reflexivity].
  rewrite bind_unfold. unfold lift. rewrite Hk. rewrite gets_bind.
  destruct (decide (k ∈ seen w)); [reflexivity | contradiction].
Qed.

(** An item with a fresh identifier is appended and its identifier
    remembered. *)
Lemma accept_item_fresh (seen : World → gset Key) add src now id title narratives w k :
  truthy id = true → truthy title = true → py_hash id = Ok k → k ∉ seen w →
  accept_item seen add src now id title narratives w
  = (add k w, Ok (narratives ++ [mkNarrative title src now])).
Proof.
  intros Hid Ht Hk Hin. unfold accept_item. rewrite Hid, Ht.
  cbn [andb]. rewrite bind_unfold. unfold lift. rewrite Hk. rewrite gets_bind.
  destruct (decide (k ∈ seen w)); [contradiction | reflexivity].
Qed.

(** HackerNews and Reddit: once an identifier is in the dedup set of its
    source it stays there through any number of iterations, and an item
    carrying it is dropped without touching the world. *)
Lemma seen_item_dropped_forever env n w k id title now narratives :
  py_hash id = Ok k →
  (k ∈ hn_seen w →
     accept_item hn_seen (fun k w => set_hn_seen (hn_seen w ∪ {[k]}) w)
       "HackerNews" now id title narratives (worker_loop env n w).1
     = ((worker_loop env n w).1, Ok narratives))
  ∧ (k ∈ reddit_seen w →
     accept_item reddit_seen (fun k w => set_reddit_seen (reddit_seen w ∪ {[k]}) w)
       "Reddit/technology" now id title narratives (worker_loop env n w).1
     = ((worker_loop env n w).1, Ok narratives)).
Proof.
  intros Hk. destruct (seen_grows_worker_loop env n w) as [Hh Hr].
  split; intros Hin; apply (accept_item_known _ _ _ _ _ _ _ _ k); auto.
Qed.

(** C2 at the failing input: with a NewsAPI key configured and the same
    headline answered on two consecutive polls, two iterations of the
    worker store and publish the item twice; the same story polled twice
    from HackerNews is stored once. *)
Theorem newsapi_item_accepted_twice :
  map title (db_narratives (worker newsapi_env 2 initial_world).1)
  = [JStr "Markets rally"; JStr "Markets rally"]
  ∧ map source (db_narratives (worker newsapi_env 2 initial_world).1)
    = ["NewsAPI"; "NewsAPI"]
  ∧ map title (st_narratives (worker newsapi_env 2 initial_world).1)
    = [JStr "Markets rally"; JStr "Markets rally"]
  ∧ map source (db_narratives (worker hackernews_env 2 initial_world).1)
    = ["HackerNews"]
  ∧ (worker newsapi_env 2 initial_world).2 = Ok tt.
Proof. vm_compute. split_and!; reflexivity. Qed.

End Dedup.

(* ===================================================================== *)
(** * Part III. Further properties of the code                             *)
(* ===================================================================== *)

(** ** Rounding and the statistics *)

Section Rounding.
Local Open Scope R_scope.

Lemma round_half_even_near (x : R) : Rabs (IZR (round_half_even x) - x) <= 1 / 2.
Proof.
  unfold round_half_even. pose proof (Zfloor_bound x) as [H1 H2].
  apply Rabs_le.
  destruct (Rlt_dec _ _) as [Hlt | Hnlt]; [lra |].
  destruct (Rlt_dec _ _) as [Hgt | Hngt]; [rewrite plus_IZR; lra |].
  destruct (Z.even _); [lra | rewrite plus_IZR; lra].
Qed.

Lemma round_half_even_floor (x : R) :
  round_half_even x = Zfloor x ∨ round_half_even x = (Zfloor x + 1)%Z.
Proof.
  unfold round_half_even.
  repeat destruct (Rlt_dec _ _); try destruct (Z.even _); auto.
Qed.

Lemma round_half_even_mono (x y : R) :
  x <= y → (round_half_even x <= round_half_even y)%Z.
Proof.
  intros Hxy. pose proof (Zfloor_le x y Hxy) as Hf.
  destruct (Z.eq_dec (Zfloor x) (Zfloor y)) as [Heq | Hne].
  - unfold round_half_even. rewrite Heq.
    pose proof (Zfloor_bound x). pose proof (Zfloor_bound y).
    rewrite Heq in *.
    destruct H as [Hx1 Hx2], H0 as [Hy1 Hy2].
    repeat match goal with
           | |- context [Rlt_dec ?a ?b] => destruct (Rlt_dec a b)
           end;
      try destruct (Z.even _); first [lia | exfalso; lra].
  - destruct (round_half_even_floor x) as [-> | ->],
             (round_half_even_floor y) as [-> | ->]; lia.
Qed.

Lemma py_round_mono (x y : R) (n : nat) : x <= y → py_round x n <= py_round y n.
Proof.
  intros Hxy. unfold py_round. pose proof (pow10_pos n) as Hp.
  apply Rmult_le_compat_r; [left; apply Rinv_0_lt_compat; exact Hp |].
  apply IZR_le, round_half_even_mono. nra.
Qed.

Lemma py_round_near (x : R) (n : nat) :
  Rabs (py_round x n - x) <= 1 / 2 / 10 ^ n.
Proof.
  unfold py_round. pose proof (pow10_pos n) as Hp.
  pose proof (round_half_even_near (x * 10 ^ n)) as Hr.
  set (k := IZR (round_half_even (x * 10 ^ n))) in *.
  assert (Hk : - (1 / 2) <= k - x * 10 ^ n <= 1 / 2)
    by (unfold Rabs in Hr; destruct (Rcase_abs _); lra).
  assert (Hi : 0 < / 10 ^ n) by (apply Rinv_0_lt_compat; exact Hp).
  assert (Hx : k / 10 ^ n - x = (k - x * 10 ^ n) * / 10 ^ n) by (field; lra).
  rewrite Hx. apply Rabs_le. unfold Rdiv. split; nra.
Qed.

Lemma py_round_decimal (x : R) (n : nat) :
  py_round x n * 10 ^ n = IZR (round_half_even (x * 10 ^ n)).
Proof. unfold py_round. pose proof (pow10_pos n). field. lra. Qed.

End Rounding.

Section StatsFurther.
Local Open Scope R_scope.

Lemma py_sum_map_shift (c : R) (xs : list R) :
  py_sum (map (fun x => x + c) xs) = py_sum xs + INR (length xs) * c.
Proof.
  induction xs as [| x xs IH].
  - simpl. rewrite py_sum_nil. lra.
  - cbn [map length]. rewrite !py_sum_cons, IH, S_INR. lra.
Qed.

Lemma last_map_shift (c : R) (xs : list R) (d : R) :
  List.last (map (fun x => x + c) xs) (d + c) = List.last xs d + c.
Proof.
  induction xs as [| x xs IH]; [reflexivity |].
  destruct xs as [| y ys]; [reflexivity |].
  change (List.last (map (fun x => x + c) (y :: ys)) (d + c) = List.last (y :: ys) d + c).
  exact IH.
Qed.

Lemma spec_mean_shift (c x : R) (xs : list R) :
  spec_mean (map (fun y => y + c) (x :: xs)) = spec_mean (x :: xs) + c.
Proof.
  unfold spec_mean. rewrite py_sum_map_shift, length_map.
  pose proof (INR_length_pos x xs). field. lra.
Qed.

Lemma spec_pstdev_shift (c x : R) (xs : list R) :
  spec_pstdev (map (fun y => y + c) (x :: xs)) = spec_pstdev (x :: xs).
Proof.
  unfold spec_pstdev. rewrite spec_mean_shift, length_map, map_map.
  do 3 f_equal. apply map_ext. intros y. f_equal. lra.
Qed.

Lemma spec_mean_between (lo hi x : R) (xs : list R) :
  Forall (fun y => lo <= y <= hi) (x :: xs) → lo <= spec_mean (x :: xs) <= hi.
Proof.
  intros Hall. unfold spec_mean.
  pose proof (INR_length_pos x xs) as Hn.
  assert (Hs : ∀ l : list R, Forall (fun y => lo <= y <= hi) l →
                 INR (length l) * lo <= py_sum l <= INR (length l) * hi).
  { induction 1 as [| y l Hy _ IH].
    - simpl. rewrite py_sum_nil. lra.
    - cbn [length]. rewrite py_sum_cons, S_INR. lra. }
  specialize (Hs _ Hall).
  assert (Hi : 0 < / INR (length (x :: xs))) by (apply Rinv_0_lt_compat; exact Hn).
  set (n := INR (length (x :: xs))) in *. set (t := py_sum (x :: xs)) in *.
  assert (lo = n * lo * / n) by (field; lra).
  assert (hi = n * hi * / n) by (field; lra).
  unfold Rdiv. split; nra.
Qed.







End StatsFurther.

(** ** Everything the worker writes *)

(** A relation kept by each single write of the program is kept by every
    function of it. The hypotheses list the writes: the four call
    counters, a delivery to a queue, the trimmed append to the incidents
    tail and the insert in the incidents table, the removal of a
    subscriber, the scores snapshot, one push on a price window, the two
    dedup sets, the batch of the persist step and the two writes of the
    narratives snapshot. *)
Section WorkerWrites.

Variable P : World → World → Prop.
Hypothesis P_refl : ∀ w, P w w.
Hypothesis P_trans : ∀ w1 w2 w3, P w1 w2 → P w2 w3 → P w1 w3.
Hypothesis W_clock : ∀ w, P w (set_n_clock (S (n_clock w)) w).
Hypothesis W_http : ∀ w, P w (set_n_http (S (n_http w)) w).
Hypothesis W_db : ∀ w, P w (set_n_db (S (n_db w)) w).
Hypothesis W_put : ∀ w, P w (set_n_put (S (n_put w)) w).
Hypothesis W_queue : ∀ q payload w,
  P w (set_queues (<[q := received w q ++ [payload]]> (queues w)) w).
Hypothesis W_incident : ∀ incident w,
  P w (set_st_incidents (py_tail 100 (st_incidents w ++ [incident])) w).
Hypothesis W_db_incident : ∀ incident w,
  P w (set_db_incidents (db_incidents w ++ [incident]) w).
Hypothesis W_discard : ∀ q w, P w (set_st_clients (st_clients w ∖ {[q]}) w).
Hypothesis W_scores : ∀ rows w, P w (set_st_scores rows w).
Hypothesis W_window : ∀ v coin w, coin ∈ ["bitcoin"; "ethereum"] →
  P w (set_prices (dict_alter (window_push v) coin (prices w)) w).
Hypothesis W_hn : ∀ k w, P w (set_hn_seen (hn_seen w ∪ {[k]}) w).
Hypothesis W_reddit : ∀ k w, P w (set_reddit_seen (reddit_seen w ∪ {[k]}) w).
Hypothesis W_persist : ∀ rows narratives w,
  P w (set_db_narratives (db_narratives w ++ narratives)
         (set_db_scores (db_scores w ++ rows) w)).
Hypothesis W_latest : ∀ new w,
  P w (set_st_narratives (py_tail 50 (st_narratives w ++ new)) w).
Hypothesis W_republish : ∀ w, P w (set_st_narratives (st_narratives w) w).

Lemma writes_time_time env : steps P (time_time env).
Proof. intros w. apply W_clock. Qed.

Lemma writes_client_get env url timeout headers :
  steps P (client_get env url timeout headers).
Proof. intros w. apply W_http. Qed.

Lemma writes_db_transaction env writes :
  (∀ w, P w (writes w)) → steps P (db_transaction env writes).
Proof.
  intros Hw w. unfold db_transaction.
  destruct (db_commit env (n_db w)); cbn [fst].
  - apply W_db.
  - eapply P_trans; [apply W_db | apply Hw].
Qed.

Lemma writes_q_put env q payload : steps P (q_put env q payload).
Proof.
  intros w. unfold q_put. destruct (queue_put env (n_put w) q); cbn [fst].
  - apply W_put.
  - eapply P_trans; [apply W_put |].
    exact (W_queue q payload (set_n_put (S (n_put w)) w)).
Qed.

Lemma writes_log_incident env kind msg : steps P (log_incident env kind msg).
Proof.
  unfold log_incident. apply steps_bind; [assumption | apply writes_time_time |].
  intros t w. rewrite !modify_bind.
  eapply P_trans; [exact (W_incident (mkIncident kind msg t) w) |].
  apply (writes_db_transaction env
           (fun w => set_db_incidents (db_incidents w ++ [mkIncident kind msg t]) w)).
  intros w'. apply W_db_incident.
Qed.

Lemma writes_fetch_json env url timeout headers :
  steps P (fetch_json env url timeout headers).
Proof.
  unfold fetch_json. steps_split;
    [apply writes_client_get | apply writes_log_incident].
Qed.

Lemma writes_broadcast env payload : steps P (broadcast env payload).
Proof.
  unfold broadcast. steps_split; [apply writes_q_put |].
  apply steps_modify. intros w. apply W_discard.
Qed.

Lemma writes_push_scores env rows : steps P (push_scores env rows).
Proof.
  unfold push_scores. steps_split; [| apply writes_broadcast].
  apply steps_modify. intros w. apply W_scores.
Qed.

Lemma steps_for_each_in {A} (xs : list A) (body : A → M unit) :
  (∀ x, x ∈ xs → steps P (body x)) → steps P (for_each xs body).
Proof.
  unfold for_each. generalize tt.
  induction xs as [| x xs IH]; intros u Hb; cbn [fold_m].
  - apply steps_ret. assumption.
  - apply steps_bind; [assumption | apply Hb; left |].
    intros u'. apply IH. intros y Hy. apply Hb. right. exact Hy.
Qed.

Lemma writes_fetch_prices env : steps P (fetch_prices env).
Proof.
  unfold fetch_prices. apply steps_bind; [assumption | apply writes_fetch_json |].
  intros cg. destruct (is_dict cg); [| apply steps_ret; assumption].
  apply steps_for_each_in. intros coin Hcoin.
  apply steps_bind; [assumption | apply steps_lift; assumption | intros entry].
  apply steps_bind; [assumption | apply steps_lift; assumption | intros usd].
  apply steps_bind; [assumption | apply steps_lift; assumption | intros v].
  intros w. rewrite !modify_bind. cbn [modify fst prices set_prices].
  rewrite dict_alter_compose. exact (W_window v coin w Hcoin).
Qed.

Lemma writes_fetch_wiki env : steps P (fetch_wiki env).
Proof. unfold fetch_wiki. steps_split. apply writes_fetch_json. Qed.

Lemma writes_fetch_hackernews env now : steps P (fetch_hackernews env now).
Proof.
  unfold fetch_hackernews, accept_item. steps_split;
    first [ apply writes_fetch_json
          | apply steps_modify; intros w; apply W_hn ].
Qed.

Lemma writes_fetch_reddit env now narratives :
  steps P (fetch_reddit env now narratives).
Proof.
  unfold fetch_reddit, accept_item. steps_split;
    first [ apply writes_fetch_json
          | apply steps_modify; intros w; apply W_reddit ].
Qed.

Lemma writes_fetch_newsapi env now narratives :
  steps P (fetch_newsapi env now narratives).
Proof. unfold fetch_newsapi. steps_split; apply writes_fetch_json. Qed.

Lemma writes_compute_scores env now wiki_vals :
  steps P (compute_scores env now wiki_vals).
Proof. unfold compute_scores. steps_split. Qed.

Lemma writes_persist env rows narratives : steps P (persist env rows narratives).
Proof. unfold persist. apply writes_db_transaction. intros w. apply W_persist. Qed.

Lemma writes_publish env rows narratives : steps P (publish env rows narratives).
Proof.
  unfold publish. apply steps_bind; [assumption | apply writes_push_scores |].
  intros _. destruct narratives as [| n ns]; [apply steps_ret; assumption |].
  intros w. rewrite modify_bind, gets_bind.
  eapply P_trans; [apply W_latest |].
  unfold push_narratives. rewrite modify_bind.
  eapply P_trans; [apply W_republish | apply writes_broadcast].
Qed.

Lemma writes_tick_body env : steps P (tick_body env).
Proof.
  unfold tick_body. steps_split;
    first [ apply writes_time_time | apply writes_fetch_prices | apply writes_fetch_wiki
          | apply writes_fetch_hackernews | apply writes_fetch_reddit
          | apply writes_fetch_newsapi | apply writes_compute_scores
          | apply writes_persist | apply writes_publish ].
Qed.

Lemma writes_tick env : steps P (tick env).
Proof.
  unfold tick. steps_split; [apply writes_tick_body | apply writes_log_incident].
Qed.

Lemma writes_worker_loop env n : steps P (worker_loop env n).
Proof.
  induction n as [| n IH]; simpl; [apply steps_ret; assumption |].
  apply steps_bind; [assumption | apply writes_tick | intros _; exact IH].
Qed.

End WorkerWrites.

(** ** The price windows across a run *)

Section Windows.

Lemma dict_alter_keys (f : list R → list R) (k : string) (d : list (string * list R)) :
  k ∈ map fst d → map fst (dict_alter f k d) = map fst d.
Proof.
  induction d as [| [k' xs] d IH]; intros Hin; simpl.
  - set_solver.
  - destruct (String.eqb_spec k' k) as [-> | Hne]; [reflexivity |].
    simpl. f_equal. apply IH. simpl in Hin. set_solver.
Qed.

Lemma dict_alter_Forall (Q : list R → Prop) (f : list R → list R) (k : string)
    (d : list (string * list R)) :
  (∀ xs, Q (f xs)) → Forall (fun entry => Q entry.2) d →
  Forall (fun entry => Q entry.2) (dict_alter f k d).
Proof.
  intros Hf. induction 1 as [| [k' xs] d Hx Hd IH]; simpl.
  - repeat constructor. apply Hf.
  - destruct (String.eqb k' k); constructor; auto. apply Hf.
Qed.

Lemma window_push_keeps_shape v coin w :
  coin ∈ ["bitcoin"; "ethereum"] → windows_ok w →
  windows_ok (set_prices (dict_alter (window_push v) coin (prices w)) w).
Proof.
  intros Hcoin [Hkeys Hlen]. split; cbn [prices set_prices].
  - rewrite dict_alter_keys; [exact Hkeys | rewrite Hkeys; exact Hcoin].
  - apply (dict_alter_Forall (fun xs => length xs ≤ 120)); [| exact Hlen].
    intros xs. unfold window_push. rewrite length_py_tail. lia.
Qed.

Lemma windows_ok_worker_loop env n w :
  windows_ok w → windows_ok (worker_loop env n w).1.
Proof.
  revert w. apply (writes_worker_loop (fun w w' => windows_ok w → windows_ok w'));
    try (intros; assumption).
  - intros w1 w2 w3 H12 H23 H1. auto.
  - intros v coin w Hcoin. apply window_push_keeps_shape. exact Hcoin.
Qed.

(** X7. Whatever the environment answers and whatever state [worker] is
    started in, after any number of iterations the dict [prices] holds
    exactly the windows of bitcoin and ethereum, in this order, and neither
    window is longer than 120 samples. *)
Theorem worker_keeps_two_windows (env : Env) (n : nat) (w : World) :
  map fst (prices (worker env n w).1) = ["bitcoin"; "ethereum"]
  ∧ Forall (fun entry => length entry.2 ≤ 120) (prices (worker env n w).1).
Proof.
  unfold worker. rewrite modify_bind. apply windows_ok_worker_loop.
  split; [reflexivity |]. cbn [prices set_prices set_hn_seen set_reddit_seen].
  repeat constructor; simpl; lia.
Qed.

End Windows.

(** ** What the worker never undoes *)

Section AppendOnly.

Lemma append_only_refl w : append_only w w.
Proof. unfold append_only. split_and!; reflexivity. Qed.

Lemma append_only_trans w1 w2 w3 :
  append_only w1 w2 → append_only w2 w3 → append_only w1 w3.
Proof.
  intros (A1 & A2 & A3 & A4 & A5) (B1 & B2 & B3 & B4 & B5).
  unfold append_only. split_and!; try (etrans; eassumption).
  intros q. etrans; [apply A5 | apply B5].
Qed.

Lemma append_only_queue q payload w :
  append_only w (set_queues (<[q := received w q ++ [payload]]> (queues w)) w).
Proof.
  unfold append_only. split_and!; try reflexivity.
  intros q'. destruct (decide (q = q')) as [<- | Hne].
  - rewrite received_put_eq. apply prefix_app_r. reflexivity.
  - rewrite received_put_ne by exact Hne. reflexivity.
Qed.

Lemma append_only_worker_loop env n w : append_only w (worker_loop env n w).1.
Proof.
  apply (writes_worker_loop append_only);
    try apply append_only_trans; try apply append_only_queue;
    intros; unfold append_only; split_and!;
    first [ reflexivity
          | cbn; apply prefix_app_r; reflexivity
          | cbn; set_solver ].
Qed.

(** X8. Through any number of iterations, whatever the environment answers
    and even when an exception ends the loop: rows already in the three
    tables stay where they are (the tables only get longer), messages
    already put on a queue stay before the new ones, no subscriber is
    added to the registry, and the two dedup sets lose no identifier. *)
Theorem worker_only_appends (env : Env) (n : nat) (w : World) :
  db_scores w `prefix_of` db_scores (worker_loop env n w).1
  ∧ db_narratives w `prefix_of` db_narratives (worker_loop env n w).1
  ∧ db_incidents w `prefix_of` db_incidents (worker_loop env n w).1
  ∧ st_clients (worker_loop env n w).1 ⊆ st_clients w
  ∧ (∀ q, received w q `prefix_of` received (worker_loop env n w).1 q)
  ∧ hn_seen w ⊆ hn_seen (worker_loop env n w).1
  ∧ reddit_seen w ⊆ reddit_seen (worker_loop env n w).1.
Proof.
  destruct (append_only_worker_loop env n w) as (H1 & H2 & H3 & H4 & H5).
  destruct (seen_grows_worker_loop env n w) as [H6 H7].
  split_and!; assumption.
Qed.

End AppendOnly.

(** ** The order of the scores snapshot *)

Section Sorting.
Local Open Scope R_scope.

Lemma insert_desc_perm (r : Row) (rows : list Row) : insert_desc r rows ≡ₚ r :: rows.
Proof.
  induction rows as [| r' rest IH]; simpl; [reflexivity |].
  destruct (Rle_dec (score r') (score r)); [reflexivity |].
  rewrite IH. apply Permutation_swap.
Qed.

Lemma sorted_desc_perm (rows : list Row) : sorted_desc rows ≡ₚ rows.
Proof.
  induction rows as [| r rest IH]; simpl; [reflexivity |].
  rewrite insert_desc_perm, IH. reflexivity.
Qed.

Lemma insert_desc_sorted (r : Row) (rows : list Row) :
  StronglySorted (fun a b => score b <= score a) rows →
  StronglySorted (fun a b => score b <= score a) (insert_desc r rows).
Proof.
  induction 1 as [| r' rest Hs IH Hall]; simpl.
  - repeat constructor.
  - destruct (Rle_dec (score r') (score r)) as [Hle | Hgt].
    + constructor; [constructor; assumption |].
      constructor; [exact Hle |].
      eapply Forall_impl; [exact Hall |]. simpl. intros x Hx. lra.
    + constructor; [exact IH |].
      rewrite insert_desc_perm. constructor; [lra | exact Hall].
Qed.

Lemma sorted_desc_sorted (rows : list Row) :
  StronglySorted (fun a b => score b <= score a) (sorted_desc rows).
Proof.
  induction rows as [| r rest IH]; simpl; [constructor |].
  apply insert_desc_sorted. exact IH.
Qed.

Lemma insert_desc_stable (c : R) (r : Row) (rows : list Row) :
  filter (fun x => score x = c) (insert_desc r rows)
  = filter (fun x => score x = c) (r :: rows).
Proof.
  induction rows as [| r' rest IH]; simpl; [reflexivity |].
  destruct (Rle_dec (score r') (score r)) as [Hle | Hgt]; [reflexivity |].
  rewrite (filter_cons _ r'), IH, !filter_cons.
  destruct (decide (score r' = c)), (decide (score r = c)); try reflexivity.
  exfalso. lra.
Qed.

Lemma sorted_desc_stable (c : R) (rows : list Row) :
  filter (fun x => score x = c) (sorted_desc rows) = filter (fun x => score x = c) rows.
Proof.
  induction rows as [| r rest IH]; simpl; [reflexivity |].
  rewrite insert_desc_stable, !filter_cons, IH. reflexivity.
Qed.

End Sorting.

(** ** What one call of [broadcast] does *)

Section Fanout.

Lemma broadcast_outcome env payload w :
  ∃ w', broadcast env payload w = (w', Ok tt)
    ∧ n_put w' = n_put w + size (st_clients w)
    ∧ (∀ i q, elements (st_clients w) !! i = Some q →
         match queue_put env (n_put w + i) q with
         | None => q ∈ st_clients w' ∧ received w' q = received w q ++ [payload]
         | Some _ => (q ∉ st_clients w') ∧ received w' q = received w q
         end)
    ∧ st_clients w' ⊆ st_clients w
    ∧ (∀ q, q ∉ st_clients w → received w' q = received w q).
Proof.
  unfold broadcast. rewrite gets_bind, bind_unfold.
  destruct (deliver_loop env payload (elements (st_clients w))
              (NoDup_elements _) [] w)
    as (w1 & dead & Hrun & Hc & Hn & Hout & Hin & _ & Hfrom).
  rewrite Hrun.
  destruct (discard_loop dead w1) as (w2 & Hrun2 & Hc2 & Hq2 & Hn2).
  rewrite Hrun2. exists w2.
  assert (Hrec : ∀ q, received w2 q = received w1 q)
    by (intros q; unfold received; rewrite Hq2; reflexivity).
  split_and!.
  - reflexivity.
  - rewrite Hn2, Hn. reflexivity.
  - intros i q Hi. specialize (Hin i q Hi).
    assert (Hq : q ∈ st_clients w)
      by (apply elem_of_elements; eapply list_elem_of_lookup_2; eauto).
    rewrite Hrec, Hc2, Hc.
    destruct (queue_put env (n_put w + i) q).
    + destruct Hin as [Hr Hd]. split; [| exact Hr].
      rewrite elem_of_difference, elem_of_list_to_set. tauto.
    + destruct Hin as [Hr Hd]. split; [| exact Hr].
      rewrite elem_of_difference, elem_of_list_to_set. split; [exact Hq |].
      intros Hq'. specialize (Hd Hq'). set_solver.
  - rewrite Hc2, Hc. set_solver.
  - intros q Hq. rewrite Hrec. apply Hout. rewrite elem_of_elements. exact Hq.
Qed.

Lemma broadcast_beside env payload w :
  beside_delivery (broadcast env payload w).1 = beside_delivery w.
Proof.
  revert w.
  apply (writes_broadcast (fun w w' => beside_delivery w' = beside_delivery w));
    intros; first [reflexivity | congruence].
Qed.

End Fanout.

(** ** A tick publishes all or nothing *)

Section Atomicity.

Local Ltac kept :=
  intros; first [reflexivity | congruence].

Lemma prefix_time_time env w : published (time_time env w).1 = published w.
Proof. reflexivity. Qed.

Lemma prefix_fetch_prices env w : published (fetch_prices env w).1 = published w.
Proof.
  revert w. apply (writes_fetch_prices (fun w w' => published w' = published w)); kept.
Qed.

Lemma prefix_fetch_wiki env w : published (fetch_wiki env w).1 = published w.
Proof.
  revert w. apply (writes_fetch_wiki (fun w w' => published w' = published w)); kept.
Qed.

Lemma prefix_fetch_hackernews env now w :
  published (fetch_hackernews env now w).1 = published w.
Proof.
  revert w.
  apply (writes_fetch_hackernews (fun w w' => published w' = published w)); kept.
Qed.

Lemma prefix_fetch_reddit env now narratives w :
  published (fetch_reddit env now narratives w).1 = published w.
Proof.
  revert w.
  apply (writes_fetch_reddit (fun w w' => published w' = published w)); kept.
Qed.

Lemma prefix_fetch_newsapi env now narratives w :
  published (fetch_newsapi env now narratives w).1 = published w.
Proof.
  revert w.
  apply (writes_fetch_newsapi (fun w w' => published w' = published w)); kept.
Qed.

Lemma prefix_compute_scores env now wiki_vals w :
  published (compute_scores env now wiki_vals w).1 = published w.
Proof.
  revert w.
  apply (writes_compute_scores (fun w w' => published w' = published w)); kept.
Qed.

(** [publish] never raises; it replaces the scores snapshot and extends
    the narratives snapshot. *)
Lemma publish_outcome env rows narratives w :
  ∃ w', publish env rows narratives w = (w', Ok tt)
    ∧ st_scores w' = sorted_desc rows
    ∧ st_narratives w'
      = match narratives with
        | [] => st_narratives w
        | _ => py_tail 50 (st_narratives w ++ narratives)
        end
    ∧ db_scores w' = db_scores w
    ∧ db_narratives w' = db_narratives w.
Proof.
  unfold publish, push_scores. rewrite bind_unfold, modify_bind.
  set (w1 := set_st_scores (sorted_desc rows) w).
  destruct (broadcast_outcome env (ScoresEvent (sorted_desc rows)) w1)
    as (w2 & Hrun & _).
  pose proof (broadcast_beside env (ScoresEvent (sorted_desc rows)) w1) as Hb.
  rewrite Hrun in *. cbn [fst] in Hb. unfold beside_delivery in Hb.
  injection Hb as Hs Hn _ Hds Hdn _ _ _ _ _ _ _.
  destruct narratives as [| n ns].
  - exists w2. split_and!; [reflexivity | exact Hs | exact Hn | exact Hds | exact Hdn].
  - rewrite modify_bind, gets_bind. unfold push_narratives. rewrite modify_bind.
    match goal with
    | |- context [broadcast env ?p ?w3] =>
        destruct (broadcast_outcome env p w3) as (w4 & Hrun4 & _);
        pose proof (broadcast_beside env p w3) as Hb4;
        rewrite Hrun4 in *
    end.
    cbn [fst] in Hb4. unfold beside_delivery in Hb4.
    injection Hb4 as Hs4 Hn4 _ Hds4 Hdn4 _ _ _ _ _ _ _.
    cbn in Hs4, Hn4, Hds4, Hdn4.
    exists w4. split_and!.
    + reflexivity.
    + rewrite Hs4. exact Hs.
    + rewrite Hn4, Hn. reflexivity.
    + rewrite Hds4. exact Hds.
    + rewrite Hdn4. exact Hdn.
Qed.

Lemma tick_body_outcome env w :
  match tick_body env w with
  | (w1, Raise e) => published w1 = published w
  | (w1, Ok _) =>
      ∃ rows narratives,
        db_scores w1 = db_scores w ++ rows
        ∧ st_scores w1 = sorted_desc rows
        ∧ db_narratives w1 = db_narratives w ++ narratives
        ∧ st_narratives w1
          = match narratives with
            | [] => st_narratives w
            | _ => py_tail 50 (st_narratives w ++ narratives)
            end
  end.
Proof.
  unfold tick_body. rewrite bind_unfold.
  pose proof (prefix_time_time env w) as H0.
  destruct (time_time env w) as [w0 [now | e]]; cbn [fst] in H0; [| exact H0].
  rewrite bind_unfold.
  pose proof (prefix_fetch_prices env w0) as H1.
  destruct (fetch_prices env w0) as [w1 [u | e]]; cbn [fst] in H1; [| congruence].
  rewrite bind_unfold.
  pose proof (prefix_fetch_wiki env w1) as H2.
  destruct (fetch_wiki env w1) as [w2 [wiki_vals | e]]; cbn [fst] in H2; [| congruence].
  rewrite bind_unfold.
  pose proof (prefix_fetch_hackernews env now w2) as H3.
  destruct (fetch_hackernews env now w2) as [w3 [n1 | e]]; cbn [fst] in H3; [| congruence].
  rewrite bind_unfold.
  pose proof (prefix_fetch_reddit env now n1 w3) as H4.
  destruct (fetch_reddit env now n1 w3) as [w4 [n2 | e]]; cbn [fst] in H4; [| congruence].
  rewrite bind_unfold.
  pose proof (prefix_fetch_newsapi env now n2 w4) as H5.
  destruct (fetch_newsapi env now n2 w4) as [w5 [n3 | e]]; cbn [fst] in H5; [| congruence].
  rewrite bind_unfold.
  pose proof (prefix_compute_scores env now wiki_vals w5) as H6.
  destruct (compute_scores env now wiki_vals w5) as [w6 [rows | e]];
    cbn [fst] in H6; [| congruence].
  assert (Hw : published w6 = published w) by congruence.
  clear H0 H1 H2 H3 H4 H5 H6.
  rewrite bind_unfold. unfold persist, db_transaction.
  destruct (db_commit env (n_db w6)) as [e |]; [exact Hw |].
  destruct (publish_outcome env rows n3
              (set_db_narratives (db_narratives (set_n_db (S (n_db w6)) w6) ++ n3)
                 (set_db_scores (db_scores (set_n_db (S (n_db w6)) w6) ++ rows)
                    (set_n_db (S (n_db w6)) w6))))
    as (w8 & Hrun & Hs & Hn & Hds & Hdn).
  rewrite Hrun. unfold published in Hw. injection Hw as Hw1 Hw2 Hw3 Hw4 _ _.
  exists rows, n3. cbn in Hn, Hds, Hdn.
  rewrite Hds, Hdn, Hs, Hn, ?Hw2, ?Hw3, ?Hw4. split_and!; reflexivity.
Qed.

Lemma published_log_incident env kind msg w :
  published (log_incident env kind msg w).1 = published w.
Proof.
  revert w.
  apply (writes_log_incident (fun w w' => published w' = published w)); kept.
Qed.

(** X9. When the body of an iteration raises, at whatever point, the iteration
    has stored and published nothing: the two snapshots, the scores and
    narratives tables, the queues and the registry are as they were, also
    after the handler has logged the incident. *)
Theorem failed_tick_publishes_nothing (env : Env) (w w1 : World) (e : exn) :
  tick_body env w = (w1, Raise e) →
  published w1 = published w ∧ published (tick env w).1 = published w.
Proof.
  intros Hbody. pose proof (tick_body_outcome env w) as H. rewrite Hbody in H.
  split; [exact H |].
  unfold tick. rewrite (try_raise _ _ _ _ _ Hbody).
  rewrite published_log_incident. exact H.
Qed.

Lemma failed_tick_publishes_nothing_witness :
  tick_body hiccup_env initial_world
  = (mkWorld [] [] [] ∅ [] [] [] ∅ [] ∅ ∅ 1 4 1 0, Raise "database is locked")
  ∧ published (tick hiccup_env initial_world).1 = published initial_world.
Proof.
  assert (Hbody : tick_body hiccup_env initial_world
    = (mkWorld [] [] [] ∅ [] [] [] ∅ [] ∅ ∅ 1 4 1 0, Raise "database is locked"))
    by reflexivity.
  split; [exact Hbody |].
  apply (failed_tick_publishes_nothing hiccup_env initial_world _ _ Hbody).
Defined.



End Atomicity.

(** ** Payloads of an unexpected shape *)

Section Shapes.

Lemma py_get_non_dict (v : json) (key : string) (dflt : json) :
  is_dict v = false →
  py_get v key dflt = Raise ("'" +:+ type_name v +:+ "' object has no attribute 'get'").
Proof. destruct v; intros H; try reflexivity; discriminate. Qed.

(** X11. A source that answers valid JSON which is not an object (a list, a
    number, a string, [null]) is skipped without a trace: the part of the
    iteration that handles it returns no value, no narrative item and no
    sample, logs no incident and raises nothing; only the request counter
    moves. *)
Theorem non_dict_payload_is_skipped (env : Env) (w : World) (payload : json)
    (now : R) (narratives : list Narrative) :
  is_dict payload = false →
  (http_get env (n_http w) coingecko_url 10 default_headers = Ok payload →
   fetch_prices env w = (set_n_http (S (n_http w)) w, Ok tt))
  ∧ (http_get env (n_http w) wikimedia_url 10 default_headers = Ok payload →
     fetch_wiki env w = (set_n_http (S (n_http w)) w, Ok []))
  ∧ (http_get env (n_http w) hackernews_url 10 default_headers = Ok payload →
     fetch_hackernews env now w = (set_n_http (S (n_http w)) w, Ok []))
  ∧ (http_get env (n_http w) reddit_url 10 reddit_headers = Ok payload →
     fetch_reddit env now narratives w = (set_n_http (S (n_http w)) w, Ok narratives))
  ∧ (NEWSAPI_KEY env ≠ "" →
     http_get env (n_http w) (newsapi_url (NEWSAPI_KEY env)) 10 default_headers
     = Ok payload →
     fetch_newsapi env now narratives w
     = (set_n_http (S (n_http w)) w, Ok narratives)).
Proof.
  intros Hnd. split_and!.
  - intros Hget. unfold fetch_prices.
    rewrite bind_unfold, (fetch_json_ok _ _ _ None _ _ Hget), Hnd. reflexivity.
  - intros Hget. unfold fetch_wiki.
    rewrite bind_unfold, (fetch_json_ok _ _ _ None _ _ Hget), Hnd. reflexivity.
  - intros Hget. unfold fetch_hackernews.
    rewrite bind_unfold, (fetch_json_ok _ _ _ None _ _ Hget), Hnd. reflexivity.
  - intros Hget. unfold fetch_reddit.
    rewrite bind_unfold, (fetch_json_ok _ _ _ (Some reddit_headers) _ _ Hget), Hnd.
    reflexivity.
  - intros Hkey Hget. unfold fetch_newsapi.
    destruct (String.eqb_spec (NEWSAPI_KEY env) "") as [Heq | _]; [contradiction |].
    rewrite bind_unfold, (fetch_json_ok _ _ _ None _ _ Hget), Hnd. reflexivity.
Qed.

Lemma non_dict_payload_is_skipped_witness :
  is_dict JNull = false
  ∧ fetch_prices locked_env initial_world = (set_n_http 1 initial_world, Ok tt)
  ∧ fetch_wiki locked_env initial_world = (set_n_http 1 initial_world, Ok []).
Proof.
  split; [reflexivity |].
  destruct (non_dict_payload_is_skipped locked_env initial_world JNull 0%R [] eq_refl)
    as (Hp & Hw & _).
  split; [apply Hp | apply Hw]; reflexivity.
Defined.



End Shapes.

(** ** What the item loops can produce *)

Section Items.

(** A loop that threads a local: an invariant indexed by the number of
    elements visited. *)
Lemma fold_m_counted {A B} (Inv : nat → B → Prop) (f : B → A → M B) (xs : list A) :
  (∀ i b x w, Inv i b →
     match f b x w with (_, Ok b') => Inv (S i) b' | (_, Raise _) => True end) →
  ∀ k b w, Inv k b →
    match fold_m f xs b w with
    | (_, Ok b') => Inv (k + length xs) b'
    | (_, Raise _) => True
    end.
Proof.
  intros Hf. induction xs as [| x xs IH]; intros k b w Hb.
  - cbn. rewrite Nat.add_0_r. exact Hb.
  - cbn [fold_m]. rewrite bind_unfold. specialize (Hf k b x w Hb).
    destruct (f b x w) as [w' [b' | e]]; [| exact I].
    specialize (IH (S k) b' w' Hf). cbn [length].
    replace (k + S (length xs)) with (S k + length xs) by lia. exact IH.
Qed.

Lemma accept_item_result (seen : World → gset Key) add src now id title narratives w :
  match accept_item seen add src now id title narratives w with
  | (_, Ok narratives') =>
      narratives' = narratives
      ∨ (narratives' = narratives ++ [mkNarrative title src now]
         ∧ truthy title = true)
  | (_, Raise _) => True
  end.
Proof.
  unfold accept_item. destruct (truthy id); cbn [andb]; [| left; reflexivity].
  destruct (truthy title) eqn:Ht; [| left; reflexivity].
  rewrite bind_unfold. unfold lift. destruct (py_hash id) as [k | e]; [| exact I].
  rewrite gets_bind. destruct (decide (k ∈ seen w)); [left; reflexivity |].
  right. split; reflexivity.
Qed.

Lemma slice_first_iter_length (n : nat) (v v' : json) (its : list json) :
  py_slice_first n v = Ok v' → py_iter v' = Ok its → length its ≤ n.
Proof.
  destruct v; try discriminate; intros [= <-] [= <-].
  - unfold chars. rewrite length_map, String.list_ascii_of_string_of_list_ascii,
      length_take. lia.
  - rewrite length_take. lia.
Qed.

Lemma slice_last_iter_length (n : nat) (v v' : json) (its : list json) :
  py_slice_last n v = Ok v' → py_iter v' = Ok its → length its ≤ n.
Proof.
  destruct v; try discriminate; intros [= <-] [= <-].
  - unfold chars. rewrite length_map, String.list_ascii_of_string_of_list_ascii,
      length_py_tail. lia.
  - rewrite length_py_tail. lia.
Qed.

Lemma extended_same src now before i : extended src now before i before.
Proof. exists []. rewrite app_nil_r. split_and!; [reflexivity | simpl; lia | constructor]. Qed.

Lemma extended_step src now before i after title :
  extended src now before i after → truthy title = true →
  extended src now before (S i) (after ++ [mkNarrative title src now]).
Proof.
  intros (new & -> & Hlen & Hall) Ht. exists (new ++ [mkNarrative title src now]).
  split_and!.
  - rewrite app_assoc. reflexivity.
  - rewrite length_app. simpl. lia.
  - apply Forall_app. split; [exact Hall |]. repeat constructor. exact Ht.
Qed.

Lemma extended_skip src now before i after :
  extended src now before i after → extended src now before (S i) after.
Proof. intros (new & -> & Hlen & Hall). exists new. split_and!; auto. Qed.

Lemma accept_item_extends (seen : World → gset Key) add src now id title
    narratives before i w :
  extended src now before i narratives →
  match accept_item seen add src now id title narratives w with
  | (_, Ok narratives') => extended src now before (S i) narratives'
  | (_, Raise _) => True
  end.
Proof.
  intros Hext. pose proof (accept_item_result seen add src now id title narratives w) as H.
  destruct (accept_item seen add src now id title narratives w) as [w' [ns | e]];
    [| exact I].
  destruct H as [-> | [-> Ht]].
  - apply extended_skip. exact Hext.
  - apply extended_step; assumption.
Qed.

Local Ltac lifted :=
  rewrite bind_unfold; unfold lift at 1;
  match goal with
  | |- context [match ?r with Ok _ => _ | Raise _ => _ end] =>
      let E := fresh "E" in destruct r eqn:E; [| exact Logic.I]
  end.

Lemma fetch_hackernews_items env now w :
  match fetch_hackernews env now w with
  | (_, Ok narratives) => extended "HackerNews" now [] 15 narratives
  | (_, Raise _) => True
  end.
Proof.
  unfold fetch_hackernews. rewrite bind_unfold.
  destruct (fetch_json env hackernews_url 10 None w) as [w1 [hn | e]]; [| exact Logic.I].
  destruct (is_dict hn); [| apply extended_same].
  do 3 lifted.
  rename a into hits, a0 into first15, a1 into its.
  pose proof (slice_first_iter_length 15 hits first15 its E0 E1) as Hlen.
  match goal with
  | |- context [fold_m ?f its [] w1] =>
      pose proof (fold_m_counted (extended "HackerNews" now []) f its) as Hloop
  end.
  match type of Hloop with
  | ?premise → _ => assert (Hstep : premise); [| specialize (Hloop Hstep 0 [] w1
                                                  (extended_same _ _ _ _)) ]
  end.
  { intros i b hit w' Hb. do 2 lifted.
    rewrite bind_unfold.
    destruct (truthy a0).
    - cbn [mret M_ret]. apply accept_item_extends. exact Hb.
    - unfold lift at 1. destruct (py_get hit "story_title" JNull); [| exact Logic.I].
      apply accept_item_extends. exact Hb. }
  destruct (fold_m _ its [] w1) as [w2 [ns | e]]; [| exact Logic.I].
  destruct Hloop as (new & -> & Hn & Hall). exists new.
  split_and!; [reflexivity | simpl in Hn; lia | exact Hall].
Qed.

Lemma fetch_reddit_items env now narratives w :
  match fetch_reddit env now narratives w with
  | (_, Ok narratives') =>
      ∃ i, extended "Reddit/technology" now narratives i narratives'
  | (_, Raise _) => True
  end.
Proof.
  unfold fetch_reddit. rewrite bind_unfold.
  destruct (fetch_json env reddit_url 10 (Some reddit_headers) w) as [w1 [red | e]];
    [| exact Logic.I].
  destruct (is_dict red); [| exists 0; apply extended_same].
  do 3 lifted. rename a1 into its.
  match goal with
  | |- context [fold_m ?f its narratives w1] =>
      pose proof (fold_m_counted (extended "Reddit/technology" now narratives) f its)
        as Hloop
  end.
  match type of Hloop with
  | ?premise → _ => assert (Hstep : premise); [| specialize (Hloop Hstep 0 narratives w1
                                                  (extended_same _ _ _ _)) ]
  end.
  { intros i b child w' Hb. do 3 lifted. apply accept_item_extends. exact Hb. }
  destruct (fold_m _ its narratives w1) as [w2 [ns | e]]; [| exact Logic.I].
  eexists. exact Hloop.
Qed.

Lemma fetch_newsapi_items env now narratives w :
  match fetch_newsapi env now narratives w with
  | (_, Ok narratives') => ∃ i, extended "NewsAPI" now narratives i narratives'
  | (_, Raise _) => True
  end.
Proof.
  unfold fetch_newsapi.
  destruct (String.eqb (NEWSAPI_KEY env) ""); [exists 0; apply extended_same |].
  rewrite bind_unfold.
  destruct (fetch_json env _ 10 None w) as [w1 [news | e]]; [| exact Logic.I].
  destruct (is_dict news); [| exists 0; apply extended_same].
  do 2 lifted. rename a0 into its.
  match goal with
  | |- context [fold_m ?f its narratives w1] =>
      pose proof (fold_m_counted (extended "NewsAPI" now narratives) f its) as Hloop
  end.
  match type of Hloop with
  | ?premise → _ => assert (Hstep : premise); [| specialize (Hloop Hstep 0 narratives w1
                                                  (extended_same _ _ _ _)) ]
  end.
  { intros i b art w' Hb. lifted. destruct (truthy a0) eqn:Ht.
    - apply extended_step; assumption.
    - apply extended_skip. exact Hb. }
  destruct (fold_m _ its narratives w1) as [w2 [ns | e]]; [| exact Logic.I].
  eexists. exact Hloop.
Qed.

Lemma fetch_wiki_values env w :
  match fetch_wiki env w with
  | (_, Ok wiki_vals) => length wiki_vals ≤ 10
  | (_, Raise _) => True
  end.
Proof.
  unfold fetch_wiki. rewrite bind_unfold.
  destruct (fetch_json env wikimedia_url 10 None w) as [w1 [wiki | e]]; [| exact Logic.I].
  destruct (is_dict wiki); [| simpl; lia].
  do 3 lifted. rename a into items, a0 into last10, a1 into its.
  pose proof (slice_last_iter_length 10 items last10 its E0 E1) as Hlen.
  match goal with
  | |- context [fold_m ?f its [] w1] =>
      pose proof (fold_m_counted (fun i (vals : list json) => length vals ≤ i) f its)
        as Hloop
  end.
  match type of Hloop with
  | ?premise → _ => assert (Hstep : premise); [| specialize (Hloop Hstep 0 [] w1) ]
  end.
  { intros i b it w' Hb. do 2 lifted. cbn [mret M_ret]. rewrite length_app. simpl. lia. }
  destruct (fold_m _ its [] w1) as [w2 [vals | e]]; [| exact Logic.I].
  specialize (Hloop ltac:(simpl; lia)). lia.
Qed.

(** X13. Whatever the sources answer, when the parts of an iteration that poll
    them return: HackerNews yields at most 15 items and the Wikipedia poll
    at most 10 values; Reddit and NewsAPI only append to the items
    collected so far; and every item appended carries the name of its
    source, the timestamp read at the start of the iteration, and a
    non-empty title. *)
Theorem polls_yield_tagged_items (env : Env) (now : R) (narratives : list Narrative)
    (w : World) :
  match fetch_hackernews env now w with
  | (_, Ok items) => length items ≤ 15 ∧ Forall (item_of "HackerNews" now) items
  | (_, Raise _) => True
  end
  ∧ match fetch_reddit env now narratives w with
    | (_, Ok items) =>
        ∃ new, items = narratives ++ new ∧ Forall (item_of "Reddit/technology" now) new
    | (_, Raise _) => True
    end
  ∧ match fetch_newsapi env now narratives w with
    | (_, Ok items) =>
        ∃ new, items = narratives ++ new ∧ Forall (item_of "NewsAPI" now) new
    | (_, Raise _) => True
    end
  ∧ match fetch_wiki env w with
    | (_, Ok wiki_vals) => length wiki_vals ≤ 10
    | (_, Raise _) => True
    end.
Proof.
  split_and!.
  - pose proof (fetch_hackernews_items env now w) as H.
    destruct (fetch_hackernews env now w) as [w' [items | e]]; [| exact Logic.I].
    destruct H as (new & -> & Hn & Hall). split; [exact Hn | exact Hall].
  - pose proof (fetch_reddit_items env now narratives w) as H.
    destruct (fetch_reddit env now narratives w) as [w' [items | e]]; [| exact Logic.I].
    destruct H as (i & new & -> & _ & Hall). exists new. split; [reflexivity | exact Hall].
  - pose proof (fetch_newsapi_items env now narratives w) as H.
    destruct (fetch_newsapi env now narratives w) as [w' [items | e]]; [| exact Logic.I].
    destruct H as (i & new & -> & _ & Hall). exists new. split; [reflexivity | exact Hall].
  - apply fetch_wiki_values.
Qed.

End Items.

(** ** Accepted once *)

Section Once.

(** X14. HackerNews and Reddit: an item with a non-empty title whose identifier
    is new to its source's set is appended once and its identifier
    recorded; from then on, after any number of iterations and whatever the
    environment answers, an item of that source with an equal identifier
    is dropped and changes nothing. *)
Theorem item_accepted_once (env : Env) (n : nat) (w : World) (k : Key)
    (id title id' title' : json) (now now' : R)
    (narratives narratives' : list Narrative) :
  truthy id = true → truthy title = true →
  py_hash id = Ok k → py_hash id' = Ok k →
  (k ∉ hn_seen w →
   accept_item hn_seen (fun k w => set_hn_seen (hn_seen w ∪ {[k]}) w)
     "HackerNews" now id title narratives w
   = (set_hn_seen (hn_seen w ∪ {[k]}) w,
      Ok (narratives ++ [mkNarrative title "HackerNews" now]))
   ∧ accept_item hn_seen (fun k w => set_hn_seen (hn_seen w ∪ {[k]}) w)
       "HackerNews" now' id' title' narratives'
       (worker_loop env n (set_hn_seen (hn_seen w ∪ {[k]}) w)).1
     = ((worker_loop env n (set_hn_seen (hn_seen w ∪ {[k]}) w)).1, Ok narratives'))
  ∧ (k ∉ reddit_seen w →
     accept_item reddit_seen (fun k w => set_reddit_seen (reddit_seen w ∪ {[k]}) w)
       "Reddit/technology" now id title narratives w
     = (set_reddit_seen (reddit_seen w ∪ {[k]}) w,
        Ok (narratives ++ [mkNarrative title "Reddit/technology" now]))
     ∧ accept_item reddit_seen (fun k w => set_reddit_seen (reddit_seen w ∪ {[k]}) w)
         "Reddit/technology" now' id' title' narratives'
         (worker_loop env n (set_reddit_seen (reddit_seen w ∪ {[k]}) w)).1
       = ((worker_loop env n (set_reddit_seen (reddit_seen w ∪ {[k]}) w)).1,
          Ok narratives')).
Proof.
  intros Hid Ht Hk Hk'. split; intros Hfresh; split.
  - exact (accept_item_fresh hn_seen
             (fun k w => set_hn_seen (hn_seen w ∪ {[k]}) w)
             "HackerNews" now id title narratives w k Hid Ht Hk Hfresh).
  - apply (accept_item_known _ _ _ _ _ _ _ _ k); [exact Hk' |].
    apply (seen_grows_worker_loop env n). cbn. set_solver.
  - exact (accept_item_fresh reddit_seen
             (fun k w => set_reddit_seen (reddit_seen w ∪ {[k]}) w)
             "Reddit/technology" now id title narratives w k Hid Ht Hk Hfresh).
  - apply (accept_item_known _ _ _ _ _ _ _ _ k); [exact Hk' |].
    apply (seen_grows_worker_loop env n). cbn. set_solver.
Qed.

Lemma item_accepted_once_witness :
  truthy (JStr "41") = true ∧ truthy (JStr "Markets rally") = true
  ∧ py_hash (JStr "41") = Ok (Some (inl "41"))
  ∧ (Some (inl "41") : Key) ∉ hn_seen initial_world
  ∧ accept_item hn_seen (fun k w => set_hn_seen (hn_seen w ∪ {[k]}) w)
      "HackerNews" 0%R (JStr "41") (JStr "Markets rally (again)") []
      (worker_loop hackernews_env 3
         (set_hn_seen (hn_seen initial_world ∪ {[Some (inl "41")]}) initial_world)).1
    = ((worker_loop hackernews_env 3
          (set_hn_seen (hn_seen initial_world ∪ {[Some (inl "41")]}) initial_world)).1,
       Ok []).
Proof.
  assert (Hfresh : (Some (inl "41") : Key) ∉ hn_seen initial_world)
    by (cbn; set_solver).
  split; [reflexivity |]. split; [reflexivity |]. split; [reflexivity |].
  split; [exact Hfresh |].
  destruct (item_accepted_once hackernews_env 3 initial_world (Some (inl "41"))
              (JStr "41") (JStr "Markets rally") (JStr "41")
              (JStr "Markets rally (again)") 0%R 0%R [] []
              eq_refl eq_refl eq_refl eq_refl) as [Hhn _].
  apply (Hhn Hfresh).
Defined.

End Once.

(** ** Pushes and subscribers *)

Section Pushes.

Lemma broadcast_all_delivered env payload w :
  (∀ k q, queue_put env k q = None) →
  ∃ w', broadcast env payload w = (w', Ok tt)
    ∧ st_clients w' = st_clients w
    ∧ (∀ q, q ∈ st_clients w → received w' q = received w q ++ [payload])
    ∧ (∀ q, q ∉ st_clients w → received w' q = received w q)
    ∧ beside_delivery w' = beside_delivery w.
Proof.
  intros Hput.
  destruct (broadcast_outcome env payload w) as (w' & Hrun & _ & Hin & Hsub & Hout).
  pose proof (broadcast_beside env payload w) as Hb. rewrite Hrun in Hb.
  assert (Hall : ∀ q, q ∈ st_clients w →
            q ∈ st_clients w' ∧ received w' q = received w q ++ [payload]).
  { intros q Hq. apply elem_of_elements, list_elem_of_lookup_1 in Hq.
    destruct Hq as [i Hi]. specialize (Hin i q Hi). rewrite Hput in Hin. exact Hin. }
  exists w'. split_and!; [exact Hrun | | | exact Hout | exact Hb].
  - apply set_eq. intros q. split; [apply Hsub | apply Hall].
  - intros q Hq. apply Hall. exact Hq.
Qed.

(** X15. With queues that accept every message, [push_scores] followed by
    [push_narratives] leaves the two snapshots equal to their arguments,
    keeps every subscriber registered, and puts the scores event and then
    the narratives event, in this order, at the end of each subscriber's
    queue; a queue that [stream] registered just before receives both. *)
Theorem pushes_arrive_in_order (env : Env) (rows : list Row)
    (items : list Narrative) (w : World) (fresh : nat) :
  (∀ k q, queue_put env k q = None) →
  ((push_scores env rows;; push_narratives env items) w).2 = Ok tt
  ∧ st_scores ((push_scores env rows;; push_narratives env items) w).1 = rows
  ∧ st_narratives ((push_scores env rows;; push_narratives env items) w).1 = items
  ∧ st_clients ((push_scores env rows;; push_narratives env items) w).1 = st_clients w
  ∧ (∀ q, q ∈ st_clients w →
       received ((push_scores env rows;; push_narratives env items) w).1 q
       = received w q ++ [ScoresEvent rows; NarrativesEvent items])
  ∧ received ((register fresh;; push_scores env rows;; push_narratives env items) w).1
      fresh
    = received w fresh ++ [ScoresEvent rows; NarrativesEvent items].
Proof.
  intros Hput.
  assert (Hmain : ∀ w,
    ((push_scores env rows;; push_narratives env items) w).2 = Ok tt
    ∧ st_scores ((push_scores env rows;; push_narratives env items) w).1 = rows
    ∧ st_narratives ((push_scores env rows;; push_narratives env items) w).1 = items
    ∧ st_clients ((push_scores env rows;; push_narratives env items) w).1 = st_clients w
    ∧ (∀ q, q ∈ st_clients w →
         received ((push_scores env rows;; push_narratives env items) w).1 q
         = received w q ++ [ScoresEvent rows; NarrativesEvent items])).
  { clear w. intros w. unfold push_scores, push_narratives.
    rewrite bind_unfold, modify_bind.
    destruct (broadcast_all_delivered env (ScoresEvent rows) (set_st_scores rows w) Hput)
      as (w1 & Hrun1 & Hc1 & Hin1 & _ & Hb1).
    rewrite Hrun1, modify_bind.
    destruct (broadcast_all_delivered env (NarrativesEvent items)
                (set_st_narratives items w1) Hput)
      as (w2 & Hrun2 & Hc2 & Hin2 & _ & Hb2).
    rewrite Hrun2. cbn [fst snd].
    unfold beside_delivery in Hb1, Hb2.
    injection Hb1 as Hs1 _ _ _ _ _ _ _ _ _ _ _.
    injection Hb2 as Hs2 Hn2 _ _ _ _ _ _ _ _ _ _.
    cbn in Hs1, Hs2, Hn2, Hc1, Hc2.
    split_and!.
    - reflexivity.
    - rewrite Hs2. exact Hs1.
    - exact Hn2.
    - rewrite Hc2. exact Hc1.
    - intros q Hq. rewrite Hin2 by (cbn; rewrite Hc1; exact Hq).
      change (received (set_st_narratives items w1) q) with (received w1 q).
      rewrite Hin1 by exact Hq. rewrite <- app_assoc. reflexivity. }
  destruct (Hmain w) as (H1 & H2 & H3 & H4 & H5).
  split_and!; try assumption.
  unfold register. rewrite modify_bind.
  destruct (Hmain (set_st_clients (st_clients w ∪ {[fresh]}) w)) as (_ & _ & _ & _ & H6).
  apply H6. cbn. set_solver.
Qed.

Lemma pushes_arrive_in_order_witness :
  (∀ k q, queue_put outage_env k q = None)
  ∧ received ((register 7;; push_scores outage_env [];; push_narratives outage_env [])
                initial_world).1 7
    = received initial_world 7 ++ [ScoresEvent []; NarrativesEvent []].
Proof.
  assert (Hput : ∀ k q, queue_put outage_env k q = None) by reflexivity.
  split; [exact Hput |].
  apply (pushes_arrive_in_order outage_env [] [] initial_world 7 Hput).
Defined.

End Pushes.

(** ** The routes that read the snapshots *)

Section Routes.

(** X16. In every state the worker can reach from a bounded one, the slice of
    [/api/narratives] drops nothing: the route returns the whole
    narratives snapshot. [/api/incidents] returns the 50 most recent
    records of the in-memory tail, all of them when there are fewer. *)
Theorem routes_return_recent (env : Env) (n : nat) (w : World) :
  bounded w →
  api_narratives (worker_loop env n w).1 = st_narratives (worker_loop env n w).1
  ∧ length (api_incidents (worker_loop env n w).1)
    = 50 `min` length (st_incidents (worker_loop env n w).1)
  ∧ take (length (st_incidents (worker_loop env n w).1) - 50)
         (st_incidents (worker_loop env n w).1)
    ++ api_incidents (worker_loop env n w).1
    = st_incidents (worker_loop env n w).1.
Proof.
  intros Hb.
  pose proof (recent_bounded _ _ (keeps_recent_worker_loop env n w Hb)) as [Hn Hi].
  unfold api_narratives, api_incidents. split_and!.
  - apply py_tail_all. exact Hn.
  - apply length_py_tail.
  - apply py_tail_suffix.
Qed.

Lemma routes_return_recent_witness :
  bounded initial_world
  ∧ api_narratives (worker_loop outage_env 2 initial_world).1
    = st_narratives (worker_loop outage_env 2 initial_world).1.
Proof.
  assert (Hb : bounded initial_world) by (split; simpl; lia).
  split; [exact Hb |].
  apply (routes_return_recent outage_env 2 initial_world Hb).
Defined.

End Routes.

(** ** The rows of a tick *)

Section Rows.

Lemma score_row_fields row_name now series :
  ∃ row, score_row row_name now series = Ok row ∧ name row = row_name ∧ ts row = now.
Proof.
  unfold score_row. destruct (calc_stats_returns series) as [r Hr].
  rewrite Hr. eexists. split_and!; reflexivity.
Qed.

Lemma price_rows_stamped now (windows : list (string * list R)) (acc : list Row) w :
  ∃ rows,
    fold_m (fun rows entry =>
              row ← lift (score_row entry.1 now entry.2);
              mret (rows ++ [row])) windows acc w
    = (w, Ok (acc ++ rows))
    ∧ map name rows = map fst windows
    ∧ Forall (fun r => ts r = now) rows.
Proof.
  revert acc. induction windows as [| [k xs] windows IH]; intros acc.
  - exists []. rewrite app_nil_r. split_and!; [reflexivity | reflexivity | constructor].
  - destruct (score_row_fields k now xs) as (row & Hrow & Hname & Hts).
    destruct (IH (acc ++ [row])) as (rows & Hrun & Hnames & Hstamps).
    exists (row :: rows). cbn [fold_m]. rewrite bind_unfold.
    cbn [fst snd]. rewrite bind_unfold. unfold lift at 1. rewrite Hrow.
    cbn [mret M_ret]. rewrite Hrun, <- app_assoc. split_and!.
    + reflexivity.
    + simpl. rewrite Hname, Hnames. reflexivity.
    + constructor; assumption.
Qed.


End Rows.

(** ** Flat and trending series *)

Section Trends.
Local Open Scope R_scope.

Lemma all_equal_replicate (n : nat) (c : R) : all_equal (replicate n c).
Proof.
  intros x y Hx Hy. apply elem_of_replicate in Hx, Hy.
  destruct Hx as [-> _], Hy as [-> _]. reflexivity.
Qed.

Lemma last_replicate (n : nat) (c d : R) : List.last (replicate (S n) c) d = c.
Proof.
  induction n as [| n IH]; [reflexivity |].
  change (List.last (replicate (S n) c) d = c). exact IH.
Qed.



End Trends.

(** ** Side effects of the fetcher, and who feeds the windows *)

Section Footprint.

Local Ltac kept :=
  intros; first [reflexivity | congruence].

Lemma fetch_json_counts env url timeout headers w :
  n_http (fetch_json env url timeout headers w).1 = S (n_http w).
Proof.
  unfold fetch_json, try_except, client_get.
  destruct (http_get env (n_http w) url timeout (headers_or_default headers));
    [reflexivity |].
  rewrite bind_unfold.
  assert (H : ∀ kind msg w', n_http (log_incident env kind msg w').1 = n_http w').
  { intros kind msg.
    apply (writes_log_incident (fun w w' => n_http w' = n_http w)); kept. }
  specialize (H "fetch_error" (url +:+ " -> " +:+ e) (set_n_http (S (n_http w)) w)).
  destruct (log_incident env _ _ _) as [w' [u | e']]; exact H.
Qed.

(** X18. Whatever the outcome, [fetch_json] makes exactly one request and its
    only other effect is on the incident log: the snapshots of scores and
    narratives, the scores and narratives tables, the queues, the registry,
    the price windows and the dedup sets are untouched, and it returns
    either the payload of the request or [None]. *)
Theorem fetch_json_footprint (env : Env) (url : string) (timeout : nat)
    (headers : option (list (string * string))) (w : World) :
  n_http (fetch_json env url timeout headers w).1 = S (n_http w)
  ∧ published (fetch_json env url timeout headers w).1 = published w
  ∧ prices (fetch_json env url timeout headers w).1 = prices w
  ∧ hn_seen (fetch_json env url timeout headers w).1 = hn_seen w
  ∧ reddit_seen (fetch_json env url timeout headers w).1 = reddit_seen w
  ∧ match (fetch_json env url timeout headers w).2 with
    | Ok v =>
        v = JNull
        ∨ http_get env (n_http w) url timeout (headers_or_default headers) = Ok v
    | Raise e => db_commit env (n_db w) = Some e
    end.
Proof.
  split; [apply fetch_json_counts |].
  split; [revert w; apply (writes_fetch_json (fun w w' => published w' = published w));
          kept |].
  split; [revert w; apply (writes_fetch_json (fun w w' => prices w' = prices w));
          kept |].
  split; [revert w; apply (writes_fetch_json (fun w w' => hn_seen w' = hn_seen w));
          kept |].
  split; [revert w;
          apply (writes_fetch_json (fun w w' => reddit_seen w' = reddit_seen w));
          kept |].
  destruct (http_get env (n_http w) url timeout (headers_or_default headers))
    as [payload | e] eqn:Hget.
  - rewrite (fetch_json_ok _ _ _ _ _ _ Hget). right. reflexivity.
  - destruct (db_commit env (n_db w)) as [e' |] eqn:Hdb.
    + rewrite (fetch_json_escapes _ _ _ _ _ _ _ Hget Hdb). reflexivity.
    + rewrite (fetch_json_failure _ _ _ _ _ _ Hget Hdb). left. reflexivity.
Qed.

Lemma tick_prices env w :
  prices (tick env w).1 = prices (fetch_prices env (time_time env w).1).1.
Proof.
  pose (P := fun w w' : World => prices w' = prices w).
  assert (P_refl : ∀ w, P w w) by (unfold P; kept).
  assert (P_trans : ∀ w1 w2 w3, P w1 w2 → P w2 w3 → P w1 w3) by (unfold P; kept).
  assert (Hlog : ∀ kind msg, steps P (log_incident env kind msg))
    by (intros kind msg; apply (writes_log_incident P); unfold P; kept).
  unfold tick, try_except, tick_body. rewrite bind_unfold. cbn [time_time fst].
  set (w0 := set_n_clock (S (n_clock w)) w). rewrite bind_unfold.
  destruct (fetch_prices env w0) as [w1 [u | e]]; cbn [fst]; [| apply Hlog].
  match goal with
  | |- context [match ?m w1 with _ => _ end] =>
      change (P w1 (try_except m (fun e => log_incident env "loop_error" e) w1).1)
  end.
  revert w1.
  match goal with
  | |- ∀ w1, P w1 (try_except ?m ?h w1).1 => change (steps P (try_except m h))
  end.
  apply steps_try; [assumption | | intros e; apply Hlog].
  steps_split.
  - apply (writes_fetch_wiki P); unfold P; kept.
  - apply (writes_fetch_hackernews P); unfold P; kept.
  - apply (writes_fetch_reddit P); unfold P; kept.
  - apply (writes_fetch_newsapi P); unfold P; kept.
  - apply (writes_compute_scores P); unfold P; kept.
  - apply (writes_persist P); unfold P; kept.
  - apply (writes_publish P); unfold P; kept.
Qed.



End Footprint.

(** ** Subscribers that left *)

Section Outsiders.

Lemma outsiders_silent_refl w : outsiders_silent w w.
Proof. split; [reflexivity | intros q _; reflexivity]. Qed.

Lemma outsiders_silent_trans w1 w2 w3 :
  outsiders_silent w1 w2 → outsiders_silent w2 w3 → outsiders_silent w1 w3.
Proof.
  intros [A1 A2] [B1 B2]. split; [etrans; eassumption |].
  intros q Hq. rewrite B2 by set_solver. apply A2. exact Hq.
Qed.

Lemma outsiders_silent_same w w' :
  st_clients w' = st_clients w → queues w' = queues w → outsiders_silent w w'.
Proof.
  intros Hc Hq. split; [rewrite Hc; reflexivity |].
  intros q _. unfold received. rewrite Hq. reflexivity.
Qed.

Lemma outsiders_silent_broadcast env payload :
  steps outsiders_silent (broadcast env payload).
Proof.
  intros w. destruct (broadcast_outcome env payload w) as (w' & Hrun & _ & _ & Hsub & Hout).
  rewrite Hrun. split; [exact Hsub | exact Hout].
Qed.

Local Ltac same := intros; apply outsiders_silent_same; reflexivity.

Lemma outsiders_silent_publish env rows narratives :
  steps outsiders_silent (publish env rows narratives).
Proof.
  unfold publish, push_scores.
  apply steps_bind; [apply outsiders_silent_trans | |].
  - apply steps_bind; [apply outsiders_silent_trans | |].
    + apply steps_modify. same.
    + intros _. apply outsiders_silent_broadcast.
  - intros _. destruct narratives as [| n ns]; [apply steps_ret, outsiders_silent_refl |].
    intros w. rewrite modify_bind, gets_bind. unfold push_narratives.
    rewrite modify_bind.
    eapply outsiders_silent_trans; [| apply outsiders_silent_broadcast].
    apply outsiders_silent_same; reflexivity.
Qed.

Lemma outsiders_silent_worker_loop env n : steps outsiders_silent (worker_loop env n).
Proof.
  pose proof outsiders_silent_refl as P_refl.
  pose proof outsiders_silent_trans as P_trans.
  assert (Hlog : ∀ kind msg, steps outsiders_silent (log_incident env kind msg))
    by (intros kind msg; apply (writes_log_incident outsiders_silent); try assumption; same).
  induction n as [| n IH]; simpl; [apply steps_ret; assumption |].
  apply steps_bind; [assumption | | intros _; exact IH].
  unfold tick. apply steps_try; [assumption | | intros e; apply Hlog].
  unfold tick_body. steps_split.
  - apply (writes_time_time outsiders_silent); same.
  - apply (writes_fetch_prices outsiders_silent); try assumption; same.
  - apply (writes_fetch_wiki outsiders_silent); try assumption; same.
  - apply (writes_fetch_hackernews outsiders_silent); try assumption; same.
  - apply (writes_fetch_reddit outsiders_silent); try assumption; same.
  - apply (writes_fetch_newsapi outsiders_silent); try assumption; same.
  - apply (writes_compute_scores outsiders_silent); try assumption; same.
  - apply (writes_persist outsiders_silent); try assumption; same.
  - apply outsiders_silent_publish.
Qed.

(** X20. A queue that is not in the registry (it never registered, or a failed
    delivery removed it) receives nothing from the worker, through any
    number of iterations, and the worker never puts it back. *)
Theorem pruned_subscriber_stays_silent (env : Env) (n : nat) (w : World) (q : nat) :
  q ∉ st_clients w →
  received (worker_loop env n w).1 q = received w q
  ∧ (q ∉ st_clients (worker_loop env n w).1).
Proof.
  intros Hq. destruct (outsiders_silent_worker_loop env n w) as [Hsub Hout].
  split; [apply Hout; exact Hq | set_solver].
Qed.

Lemma pruned_subscriber_stays_silent_witness :
  7 ∉ st_clients initial_world
  ∧ received (worker_loop outage_env 2 initial_world).1 7 = received initial_world 7.
Proof.
  assert (Hq : 7 ∉ st_clients initial_world) by (cbn; set_solver).
  split; [exact Hq |].
  apply (pruned_subscriber_stays_silent outage_env 2 initial_world 7 Hq).
Defined.

End Outsiders.
